(** * BlockChance front end: grid camera, culling, selection and VRF worker

    A shallow embedding of the grid components of the front end
    ([GameGrid], [CanvasGameGrid], [MobileOptimizedCanvas],
    [MintingInterface]) and of the elimination worker ([vrf-worker.js]).

    Numbers.  The source computes with JavaScript numbers.  Camera
    offsets, zoom levels and pixel sizes are modelled as exact rationals
    ([Q]); cell indices, which the source obtains through [Math.floor] and
    [Math.ceil], are integers ([Z]).  The one place where the source can
    divide by zero (the pinch ratio) is modelled with an explicit extended
    number type carrying [Infinity] and [NaN].  The same ratio feeds the
    one comparison whose outcome the rounding of the arithmetic decides at
    inputs two fingers produce (a ratio of exactly 1.01): there the
    quotient, the difference and the threshold are rounded to the nearest
    double, as the source computes them. *)

From Stdlib Require Import ZArith QArith Qround Qabs Qpower Lqa Lia List.
From Stdlib Require Import String Ascii DecimalString.
From stdpp Require Import gmap.

Local Open Scope Z_scope.

(** * Part I: the program *)

(** ** JavaScript [Math] helpers on finite numbers *)

Module JsMath.

Definition max (a b : Q) : Q := if Qle_bool a b then b else a.
Definition min (a b : Q) : Q := if Qle_bool a b then a else b.

(** [a < b] and [a > b] as the source's comparisons. *)
Definition ltb (a b : Q) : bool := negb (Qle_bool b a).
Definition gtb (a b : Q) : bool := ltb b a.
Definition geb (a b : Q) : bool := Qle_bool b a.

(** [parseInt] of the decimal rendering of a number: the integer part,
    truncated towards zero. *)
Definition parseInt (q : Q) : Q := inject_Z (Z.quot (Qnum q) (Z.pos (Qden q))).

(** The nearest integer, a tie going to the even one. *)
Definition roundEven (q : Q) : Z :=
  let f := Qfloor q in
  let r := (q - inject_Z f)%Q in
  if ltb r (1 # 2) then f
  else if ltb (1 # 2) r then f + 1
  else if Z.even f then f else f + 1.

(** The double nearest to a number: a significand of 53 bits, rounded to
    nearest, ties to even.  [e] is the exponent of the number's leading
    bit.  Overflow and subnormal numbers are left out. *)
Definition double (q : Q) : Q :=
  if Qeq_bool q 0 then 0%Q else
  let a := Qabs q in
  let e0 := Z.log2 (Qnum a) - Z.log2 (Z.pos (Qden a)) in
  let e := if Qle_bool (2 ^ e0) a then e0 else e0 - 1 in
  let k := e - 52 in
  let r := (inject_Z (roundEven (a / 2 ^ k)) * 2 ^ k)%Q in
  if Qle_bool 0 q then r else (- r)%Q.

End JsMath.

(** ** Numbers with [Infinity] and [NaN]

    Only the operations the pinch handler applies to the distance ratio.
    The quotient and the difference, which feed the handler's threshold
    test, are rounded to doubles; the product and the clamps, which only
    yield the new zoom, are kept exact. *)

Module JsNum.

Inductive t := Fin (q : Q) | PosInf | NegInf | NaN.

(** [a / b] for a divisor that is never the negative zero (a distance). *)
Definition div (a b : Q) : t :=
  if Qeq_bool b 0 then
    if Qeq_bool a 0 then NaN else if Qle_bool 0 a then PosInf else NegInf
  else Fin (JsMath.double (a / b)).

Definition sub (a : t) (b : Q) : t :=
  match a with Fin q => Fin (JsMath.double (q - b)) | other => other end.

Definition abs (a : t) : t :=
  match a with
  | Fin q => Fin (Qabs q)
  | PosInf | NegInf => PosInf
  | NaN => NaN
  end.

(** [a > b]; every comparison with [NaN] is false. *)
Definition gtb (a : t) (b : Q) : bool :=
  match a with
  | Fin q => JsMath.gtb q b
  | PosInf => true
  | NegInf | NaN => false
  end.

Definition mul (a : Q) (b : t) : t :=
  match b with
  | Fin q => Fin (a * q)
  | PosInf =>
      if Qeq_bool a 0 then NaN else if Qle_bool 0 a then PosInf else NegInf
  | NegInf =>
      if Qeq_bool a 0 then NaN else if Qle_bool 0 a then NegInf else PosInf
  | NaN => NaN
  end.

(** [Math.min(a, b)] and [Math.max(a, b)] with a finite first argument. *)
Definition min (a : Q) (b : t) : t :=
  match b with
  | Fin q => Fin (JsMath.min a q)
  | PosInf => Fin a
  | NegInf => NegInf
  | NaN => NaN
  end.

Definition max (a : Q) (b : t) : t :=
  match b with
  | Fin q => Fin (JsMath.max a q)
  | PosInf => PosInf
  | NegInf => Fin a
  | NaN => NaN
  end.

End JsNum.

(** ** Shared data *)

(** The camera: pan offset in pixels and zoom scalar. *)
Module View.
Record ViewPort := { x : Q; y : Q; zoom : Q }.
End View.
Abbreviation ViewPort := View.ViewPort.

(** The part of [getBoundingClientRect()] the handlers read. *)
Record DOMRect := { left : Q; top : Q }.

Inductive Status := unsold | alive | eliminated.

Definition Status_eqb (a b : Status) : bool :=
  match a, b with
  | unsold, unsold | alive, alive | eliminated, eliminated => true
  | _, _ => false
  end.

Record Position := { row : Z; col : Z }.

Record BlockData := {
  gameId : string;
  blockId : Z;
  position : Position;
  status : Status;
  ownerId : option string;
  purchasePrice : Q
}.

Inductive Mode := view | select | reveal.

(** The two callbacks a grid fires towards its owner. *)
Inductive Callback := onBlockSelect (blockId : Z) | onBlockDeselect (blockId : Z).

(** [blocks.find(b => b.blockId === id)]: the first record with that id. *)
Fixpoint find_block (blocks : list BlockData) (id : Z) : option BlockData :=
  match blocks with
  | [] => None
  | b :: rest => if Z.eqb (blockId b) id then Some b else find_block rest id
  end.

(** The [blockMap] every large-grid backend builds:
    [blocks.forEach(block => map.set(block.blockId, block))]. *)
Definition blockMap (blocks : list BlockData) : gmap Z BlockData :=
  fold_left (fun map block => <[blockId block := block]> map) blocks ∅.

(** The nested [for] loops over a row range and a column range. *)
Definition loopCells (startY endY startX endX : Z) : list (Z * Z) :=
  flat_map (fun row => map (fun col => (row, col)) (seqZ startX (endX - startX)))
           (seqZ startY (endY - startY)).

(** [getBlockPosition] of the utilities. *)
Definition getBlockPosition (blockId cols : Z) : Position :=
  {| row := Qfloor (inject_Z blockId / inject_Z cols); col := Z.rem blockId cols |}.

(** ** The desktop rasterized backend ([CanvasGameGrid]) *)

Module CanvasGameGrid.

Definition baseCellSize : Q := 8.
Definition cellSize (viewport : ViewPort) : Q :=
  JsMath.max 2 (baseCellSize * View.zoom viewport).
Definition gap (viewport : ViewPort) : Q := JsMath.max 1 (View.zoom viewport).

(** [cellSize + gap], the distance between the origins of two
    neighbouring cells. *)
Definition pitch (viewport : ViewPort) : Q := cellSize viewport + gap viewport.

Definition initialViewport : ViewPort := {| View.x := 0; View.y := 0; View.zoom := 1 |}.

Record Colors := {
  c_alive : string; c_eliminated : string; c_unsold : string;
  c_owned : string; c_selected : string
}.

Definition colors : Colors :=
  {| c_alive := "#10B981"; c_eliminated := "#EF4444"; c_unsold := "#E5E7EB";
     c_owned := "#F59E0B"; c_selected := "#3B82F6" |}.

(** *** [drawGrid] *)

Record Visible := {
  visibleStartX : Z; visibleEndX : Z; visibleStartY : Z; visibleEndY : Z
}.

Definition visibleArea (viewport : ViewPort) (width height : Q) (rows cols : Z)
    : Visible :=
  let p := pitch viewport in
  {| visibleStartX := Z.max 0 (Qfloor (- View.x viewport / p));
     visibleEndX := Z.min cols (Qceiling ((width - View.x viewport) / p) + 1);
     visibleStartY := Z.max 0 (Qfloor (- View.y viewport / p));
     visibleEndY := Z.min rows (Qceiling ((height - View.y viewport) / p) + 1) |}.

(** The cells the two [for] loops run over. *)
Definition enumerated (viewport : ViewPort) (width height : Q) (rows cols : Z)
    : list (Z * Z) :=
  let v := visibleArea viewport width height rows cols in
  loopCells (visibleStartY v) (visibleEndY v) (visibleStartX v) (visibleEndX v).

Definition cellX (viewport : ViewPort) (col : Z) : Q :=
  (View.x viewport + inject_Z col * pitch viewport)%Q.
Definition cellY (viewport : ViewPort) (row : Z) : Q :=
  (View.y viewport + inject_Z row * pitch viewport)%Q.

(** The "skip if outside canvas" test of the loop body. *)
Definition outsideCanvas (viewport : ViewPort) (width height : Q)
    (cell : Z * Z) : bool :=
  let x := cellX viewport (snd cell) in
  let y := cellY viewport (fst cell) in
  JsMath.ltb (x + cellSize viewport) 0 || JsMath.ltb (y + cellSize viewport) 0
  || JsMath.gtb x width || JsMath.gtb y height.

Definition fillColor (block : option BlockData) : string :=
  match block with
  | Some b =>
      match status b with
      | alive => c_alive colors
      | eliminated => c_eliminated colors
      | unsold => c_unsold colors
      end
  | None => c_unsold colors
  end.

(** One [fillRect] of the loop body. *)
Record FillRect := { f_blockId : Z; f_x : Q; f_y : Q; f_size : Q; f_color : string }.

(** The cells [drawGrid] paints, in loop order. *)
Definition drawGrid (viewport : ViewPort) (width height : Q) (rows cols : Z)
    (blocks : list BlockData) : list FillRect :=
  map (fun cell =>
         let blockId := fst cell * cols + snd cell in
         {| f_blockId := blockId;
            f_x := cellX viewport (snd cell);
            f_y := cellY viewport (fst cell);
            f_size := cellSize viewport;
            f_color := fillColor (blockMap blocks !! blockId) |})
      (filter (fun cell => outsideCanvas viewport width height cell = false)
              (enumerated viewport width height rows cols)).

(** *** Pointer handlers *)

(** [handleMouseMove] while dragging, by the pointer delta. *)
Definition handleMouseMove (viewport : ViewPort) (deltaX deltaY : Q) : ViewPort :=
  {| View.x := View.x viewport + deltaX;
     View.y := View.y viewport + deltaY;
     View.zoom := View.zoom viewport |}.

(** The cell-space coordinates [handleClick] computes for a pointer
    position, before it floors them to a column and a row. *)
Definition worldX (viewport : ViewPort) (rect : DOMRect) (clientX : Q) : Q :=
  ((clientX - left rect - View.x viewport) / pitch viewport)%Q.
Definition worldY (viewport : ViewPort) (rect : DOMRect) (clientY : Q) : Q :=
  ((clientY - top rect - View.y viewport) / pitch viewport)%Q.

Definition hitCol (viewport : ViewPort) (rect : DOMRect) (clientX : Q) : Z :=
  Qfloor (worldX viewport rect clientX).
Definition hitRow (viewport : ViewPort) (rect : DOMRect) (clientY : Q) : Z :=
  Qfloor (worldY viewport rect clientY).

(** [handleClick]: the callbacks fired by a click.  [canvas] is [None]
    when [canvasRef.current] is null. *)
Definition handleClick (mode : Mode) (isDragging : bool) (canvas : option DOMRect)
    (viewport : ViewPort) (rows cols : Z) (blocks : list BlockData)
    (selectedBlocks : gset Z) (clientX clientY : Q) : list Callback :=
  match mode with
  | select =>
      if isDragging then [] else
      match canvas with
      | None => []
      | Some rect =>
          let col := hitCol viewport rect clientX in
          let row := hitRow viewport rect clientY in
          if (0 <=? row) && (row <? rows) && (0 <=? col) && (col <? cols) then
            let blockId := row * cols + col in
            match blockMap blocks !! blockId with
            | None => []
            | Some block =>
                if Status_eqb (status block) unsold then
                  if decide (blockId ∈ selectedBlocks)
                  then [onBlockDeselect blockId]
                  else [onBlockSelect blockId]
                else []
            end
          else []
      end
  | _ => []
  end.

(** [handleWheel]. *)
Definition handleWheel (viewport : ViewPort) (canvas : option DOMRect)
    (clientX clientY deltaY : Q) : ViewPort :=
  let zoomFactor := 0.1%Q in
  let newZoom :=
    JsMath.max 0.1
      (JsMath.min 5 (View.zoom viewport * (1 - deltaY * zoomFactor * 0.01)))%Q in
  match canvas with
  | Some rect =>
      let mouseX := (clientX - left rect)%Q in
      let mouseY := (clientY - top rect)%Q in
      let zoomRatio := (newZoom / View.zoom viewport)%Q in
      let newX := (mouseX - (mouseX - View.x viewport) * zoomRatio)%Q in
      let newY := (mouseY - (mouseY - View.y viewport) * zoomRatio)%Q in
      {| View.x := newX; View.y := newY; View.zoom := newZoom |}
  | None => viewport
  end.

(** *** Control functions *)

Definition resetView : ViewPort := initialViewport.

(** [fitToView]; it returns early when either canvas dimension is 0.  The
    grid has at least one row and one column, so the divisors are not 0. *)
Definition fitToView (viewport : ViewPort) (width height : Q) (rows cols : Z)
    : ViewPort :=
  if Qeq_bool width 0 || Qeq_bool height 0 then viewport else
  let gridWidth := (inject_Z cols * (baseCellSize + 1))%Q in
  let gridHeight := (inject_Z rows * (baseCellSize + 1))%Q in
  let scaleX := (width / gridWidth)%Q in
  let scaleY := (height / gridHeight)%Q in
  let scale := (JsMath.min scaleX scaleY * 0.9)%Q in
  let offsetX := ((width - gridWidth * scale) / 2)%Q in
  let offsetY := ((height - gridHeight * scale) / 2)%Q in
  {| View.x := offsetX; View.y := offsetY; View.zoom := scale |}.

(** The zoom-in and zoom-out buttons. *)
Definition zoomIn (viewport : ViewPort) : ViewPort :=
  {| View.x := View.x viewport; View.y := View.y viewport;
     View.zoom := JsMath.min 5 (View.zoom viewport * 1.5) |}.
Definition zoomOut (viewport : ViewPort) : ViewPort :=
  {| View.x := View.x viewport; View.y := View.y viewport;
     View.zoom := JsMath.max 0.1 (View.zoom viewport / 1.5) |}.

(** The operations through which the component changes its camera. *)
Inductive Op :=
| OpMouseMove (deltaX deltaY : Q)
| OpWheel (canvas : option DOMRect) (clientX clientY deltaY : Q)
| OpZoomIn
| OpZoomOut
| OpReset
| OpFitToView (width height : Q) (rows cols : Z).

Definition step (viewport : ViewPort) (op : Op) : ViewPort :=
  match op with
  | OpMouseMove dx dy => handleMouseMove viewport dx dy
  | OpWheel canvas cx cy dy => handleWheel viewport canvas cx cy dy
  | OpZoomIn => zoomIn viewport
  | OpZoomOut => zoomOut viewport
  | OpReset => resetView
  | OpFitToView w h rows cols => fitToView viewport w h rows cols
  end.

Definition isFit (op : Op) : bool :=
  match op with OpFitToView _ _ _ _ => true | _ => false end.

Definition run (ops : list Op) : ViewPort := fold_left step ops initialViewport.

End CanvasGameGrid.

(** ** The touch rasterized backend ([MobileOptimizedCanvas]) *)

Module MobileOptimizedCanvas.

Definition baseCellSize : Q := 6.
Definition cellSize (viewport : ViewPort) : Q :=
  JsMath.max 1 (baseCellSize * View.zoom viewport).
Definition gap (viewport : ViewPort) : Q := JsMath.max 0.5 (View.zoom viewport).
Definition pitch (viewport : ViewPort) : Q := cellSize viewport + gap viewport.

Definition initialViewport : ViewPort :=
  {| View.x := 0; View.y := 0; View.zoom := 0.3 |}.

(** *** [drawGrid] *)

Definition buffer : Q := 20.

Record Visible := {
  visibleStartX : Z; visibleEndX : Z; visibleStartY : Z; visibleEndY : Z
}.

Definition visibleArea (viewport : ViewPort) (width height : Q) (rows cols : Z)
    : Visible :=
  let p := pitch viewport in
  {| visibleStartX := Z.max 0 (Qfloor ((- View.x viewport - buffer) / p));
     visibleEndX := Z.min cols (Qceiling ((width - View.x viewport + buffer) / p));
     visibleStartY := Z.max 0 (Qfloor ((- View.y viewport - buffer) / p));
     visibleEndY := Z.min rows (Qceiling ((height - View.y viewport + buffer) / p)) |}.

Definition enumerated (viewport : ViewPort) (width height : Q) (rows cols : Z)
    : list (Z * Z) :=
  let v := visibleArea viewport width height rows cols in
  loopCells (visibleStartY v) (visibleEndY v) (visibleStartX v) (visibleEndX v).

Definition cellX (viewport : ViewPort) (col : Z) : Q :=
  (View.x viewport + inject_Z col * pitch viewport)%Q.
Definition cellY (viewport : ViewPort) (row : Z) : Q :=
  (View.y viewport + inject_Z row * pitch viewport)%Q.

(** The test under which the loop pushes a cell to [blocksToRender]. *)
Definition onCanvas (viewport : ViewPort) (width height : Q) (cell : Z * Z) : bool :=
  let x := cellX viewport (snd cell) in
  let y := cellY viewport (fst cell) in
  JsMath.geb (x + cellSize viewport) 0 && JsMath.geb (y + cellSize viewport) 0
  && JsMath.ltb x width && JsMath.ltb y height.

Definition blocksToRender (viewport : ViewPort) (width height : Q) (rows cols : Z)
    : list (Z * Z) :=
  filter (fun cell => onCanvas viewport width height cell = true)
         (enumerated viewport width height rows cols).

(** *** Touch handlers *)

Record Touch := { clientX : Q; clientY : Q }.

(** [canvas.dataset]: each entry holds the rendering of a number, or is
    absent. *)
Record Dataset := {
  lastX : option Q; lastY : option Q; lastDistance : option Q
}.

Record State := {
  viewport : ViewPort;
  isDragging : bool;
  dataset : Dataset
}.

Definition initialState : State :=
  {| viewport := initialViewport; isDragging := false;
     dataset := {| lastX := None; lastY := None; lastDistance := None |} |}.

(** The cell-space coordinate [handleTouchEnd] computes for a touch. *)
Definition worldX (viewport : ViewPort) (rect : DOMRect) (clientX : Q) : Q :=
  ((clientX - left rect - View.x viewport) / pitch viewport)%Q.
Definition worldY (viewport : ViewPort) (rect : DOMRect) (clientY : Q) : Q :=
  ((clientY - top rect - View.y viewport) / pitch viewport)%Q.

(** [handleTouchStart]; [canvas] tells whether [canvasRef.current] is set. *)
Definition handleTouchStart (canvas : bool) (touches : list Touch) (st : State)
    : State :=
  match touches with
  | [touch] =>
      {| viewport := viewport st;
         isDragging := true;
         dataset :=
           if canvas then
             {| lastX := Some (clientX touch); lastY := Some (clientY touch);
                lastDistance := lastDistance (dataset st) |}
           else dataset st |}
  | _ => st
  end.

(** A zoom computed by the pinch branch can be stored in the camera of
    this model only when it is a finite number. *)
Definition finite (n : JsNum.t) : option Q :=
  match n with JsNum.Fin q => Some q | _ => None end.

Section TouchMove.

(** [Math.sqrt], which has no exact counterpart on the rationals. *)
Variable Math_sqrt : Q -> Q.

Definition pinchDistance (touch1 touch2 : Touch) : Q :=
  Math_sqrt ((clientX touch2 - clientX touch1) ^ 2
             + (clientY touch2 - clientY touch1) ^ 2)%Q.

(** The test [Math.abs(scale - 1) > 0.01] of the pinch branch; its
    literal is the double nearest to 0.01. *)
Definition beyondJitter (scale : JsNum.t) : bool :=
  JsNum.gtb (JsNum.abs (JsNum.sub scale 1)) (JsMath.double 0.01).

(** The ratio the pinch branch calls [scale]. *)
Definition pinchScale (st : State) (distance : Q) : JsNum.t :=
  let lastDistance :=
    match lastDistance (dataset st) with Some d => d | None => distance end in
  JsNum.div distance lastDistance.

(** [handleTouchMove].  The result is [None] where the source would store
    [NaN] as the zoom. *)
Definition handleTouchMove (canvas : bool) (touches : list Touch) (st : State)
    : option State :=
  match touches with
  | [touch] =>
      if isDragging st then
        if canvas then
          let lastX :=
            JsMath.parseInt (match lastX (dataset st) with Some v => v | None => 0 end) in
          let lastY :=
            JsMath.parseInt (match lastY (dataset st) with Some v => v | None => 0 end) in
          let deltaX := (clientX touch - lastX)%Q in
          let deltaY := (clientY touch - lastY)%Q in
          Some {| viewport :=
                    {| View.x := View.x (viewport st) + deltaX;
                       View.y := View.y (viewport st) + deltaY;
                       View.zoom := View.zoom (viewport st) |};
                  isDragging := isDragging st;
                  dataset :=
                    {| lastX := Some (clientX touch); lastY := Some (clientY touch);
                       lastDistance := lastDistance (dataset st) |} |}
        else Some st
      else Some st
  | [touch1; touch2] =>
      let distance := pinchDistance touch1 touch2 in
      if canvas then
        let scale := pinchScale st distance in
        let dataset' :=
          {| lastX := lastX (dataset st); lastY := lastY (dataset st);
             lastDistance := Some distance |} in
        if beyondJitter scale then
          let newZoom :=
            JsNum.max 0.1 (JsNum.min 3 (JsNum.mul (View.zoom (viewport st)) scale)) in
          match finite newZoom with
          | Some z =>
              Some {| viewport :=
                        {| View.x := View.x (viewport st);
                           View.y := View.y (viewport st);
                           View.zoom := z |};
                      isDragging := isDragging st;
                      dataset := dataset' |}
          | None => None
          end
        else
          Some {| viewport := viewport st; isDragging := isDragging st;
                  dataset := dataset' |}
      else Some st
  | _ => Some st
  end.

End TouchMove.

(** A square root that is exact on the squares of rationals, to run the
    handlers on concrete touches. *)
Definition sqrt_exact (q : Q) : Q :=
  Z.sqrt (Qnum q * Z.pos (Qden q)) # Qden q.

(** *** Control functions *)

Definition fitToView (viewport : ViewPort) (width height : Q) (rows cols : Z)
    : ViewPort :=
  let gridWidth := (inject_Z cols * (baseCellSize + 0.5))%Q in
  let gridHeight := (inject_Z rows * (baseCellSize + 0.5))%Q in
  let scaleX := (width / gridWidth)%Q in
  let scaleY := (height / gridHeight)%Q in
  let scale := (JsMath.min scaleX scaleY * 0.8)%Q in
  let offsetX := ((width - gridWidth * scale) / 2)%Q in
  let offsetY := ((height - gridHeight * scale) / 2)%Q in
  {| View.x := offsetX; View.y := offsetY; View.zoom := scale |}.

Definition zoomIn (viewport : ViewPort) : ViewPort :=
  {| View.x := View.x viewport; View.y := View.y viewport;
     View.zoom := JsMath.min 2 (View.zoom viewport * 1.4) |}.
Definition zoomOut (viewport : ViewPort) : ViewPort :=
  {| View.x := View.x viewport; View.y := View.y viewport;
     View.zoom := JsMath.max 0.1 (View.zoom viewport / 1.4) |}.

Definition withViewport (st : State) (v : ViewPort) : State :=
  {| viewport := v; isDragging := isDragging st; dataset := dataset st |}.

Inductive Op :=
| OpTouchStart (canvas : bool) (touches : list Touch)
| OpTouchMove (canvas : bool) (touches : list Touch)
| OpTouchEnd
| OpZoomIn
| OpZoomOut
| OpFitToView (width height : Q) (rows cols : Z).

Definition step (Math_sqrt : Q -> Q) (st : State) (op : Op) : option State :=
  match op with
  | OpTouchStart canvas touches => Some (handleTouchStart canvas touches st)
  | OpTouchMove canvas touches => handleTouchMove Math_sqrt canvas touches st
  | OpTouchEnd =>
      Some {| viewport := viewport st; isDragging := false; dataset := dataset st |}
  | OpZoomIn => Some (withViewport st (zoomIn (viewport st)))
  | OpZoomOut => Some (withViewport st (zoomOut (viewport st)))
  | OpFitToView w h rows cols =>
      Some (withViewport st (fitToView (viewport st) w h rows cols))
  end.

Definition isFit (op : Op) : bool :=
  match op with OpFitToView _ _ _ _ => true | _ => false end.

Fixpoint run (Math_sqrt : Q -> Q) (st : State) (ops : list Op) : option State :=
  match ops with
  | [] => Some st
  | op :: rest =>
      match step Math_sqrt st op with
      | Some st' => run Math_sqrt st' rest
      | None => None
      end
  end.

End MobileOptimizedCanvas.

(** ** The strategy selector and the per-cell backend ([GameGrid]) *)

Module GameGrid.

Record GridSize := { rows : Z; cols : Z }.
Record GameConfig := { gridSize : GridSize; blockPrice : Q }.
(** [game_id] is the game's [gameId] field. *)
Record GameData := { game_id : string; config : GameConfig }.

(** What the component returns: one of the three delegated backends, or
    its own per-cell markup. *)
Inductive Backend :=
| MobileOptimizedCanvas
| CanvasGameGrid
| VirtualizedGameGrid
| PerCellMarkup.

(** [window] is [None] when [typeof window] is ['undefined'], and the
    window's [innerWidth] otherwise. *)
Definition isMobile (window : option Q) : bool :=
  match window with
  | Some innerWidth => JsMath.ltb innerWidth 768
  | None => false
  end.

Definition render (game : GameData) (window : option Q) : Backend :=
  let totalBlocks := rows (gridSize (config game)) * cols (gridSize (config game)) in
  if isMobile window && (totalBlocks >? 1000) then MobileOptimizedCanvas
  else if totalBlocks >? 5000 then CanvasGameGrid
  else if totalBlocks >? 1000 then VirtualizedGameGrid
  else PerCellMarkup.

(** The record synthesized for an index without one. *)
Definition defaultBlock (game : GameData) (index : Z) : BlockData :=
  {| gameId := game_id game;
     blockId := index;
     position := getBlockPosition index (cols (gridSize (config game)));
     status := unsold;
     ownerId := None;
     purchasePrice := blockPrice (config game) |}.

Definition gridBlock (game : GameData) (blocks : list BlockData) (index : Z)
    : BlockData :=
  match find_block blocks index with
  | Some block => block
  | None => defaultBlock game index
  end.

Definition gridBlocks (game : GameData) (blocks : list BlockData) : list BlockData :=
  let totalBlocks := rows (gridSize (config game)) * cols (gridSize (config game)) in
  map (gridBlock game blocks) (seqZ 0 totalBlocks).

(** [getBlockStatusColor] of the utilities. *)
Definition getBlockStatusColor (status : Status) (isOwned : bool) : string :=
  if isOwned then "border-yellow-400 bg-yellow-100"
  else match status with
       | alive => "border-green-400 bg-green-100"
       | eliminated => "border-red-400 bg-red-100"
       | unsold => "border-gray-300 bg-gray-50"
       end.

Definition handleBlockClick (mode : Mode) (blocks : list BlockData)
    (selectedBlocks : gset Z) (blockId : Z) : list Callback :=
  match mode with
  | select =>
      match find_block blocks blockId with
      | None => []
      | Some block =>
          if Status_eqb (status block) unsold then
            if decide (blockId ∈ selectedBlocks)
            then [onBlockDeselect blockId]
            else [onBlockSelect blockId]
          else []
      end
  | _ => []
  end.

(** A click on the element of a grid block: the [Block] component wires
    [onClick] only when the block is selectable. *)
Definition isSelectable (mode : Mode) (block : BlockData) : bool :=
  match mode with
  | select => Status_eqb (status block) unsold
  | _ => false
  end.

Definition clickBlock (mode : Mode) (blocks : list BlockData)
    (selectedBlocks : gset Z) (block : BlockData) : list Callback :=
  if isSelectable mode block
  then handleBlockClick mode blocks selectedBlocks (blockId block)
  else [].

End GameGrid.

(** ** The owner of the selection ([MintingInterface]) *)

Module MintingInterface.

Definition handleBlockSelect (prev : gset Z) (blockId : Z) : gset Z :=
  prev ∪ {[blockId]}.

Definition handleBlockDeselect (prev : gset Z) (blockId : Z) : gset Z :=
  prev ∖ {[blockId]}.

(** The grid is mounted with [onBlockSelect={handleBlockSelect}] and
    [onBlockDeselect={handleBlockDeselect}]. *)
Definition deliver (selectedBlocks : gset Z) (cb : Callback) : gset Z :=
  match cb with
  | onBlockSelect blockId => handleBlockSelect selectedBlocks blockId
  | onBlockDeselect blockId => handleBlockDeselect selectedBlocks blockId
  end.

(** One click on a cell of the grid, which is mounted with
    [mode="select"]: the callbacks fired and the selection afterwards. *)
Definition toggle (blocks : list BlockData) (selectedBlocks : gset Z)
    (blockId : Z) : list Callback * gset Z :=
  let fired := GameGrid.handleBlockClick select blocks selectedBlocks blockId in
  (fired, fold_left deliver fired selectedBlocks).

(** The same click routed through the desktop canvas's [handleClick]. *)
Definition toggleCanvas (canvas : option DOMRect) (viewport : ViewPort)
    (rows cols : Z) (blocks : list BlockData) (selectedBlocks : gset Z)
    (clientX clientY : Q) : list Callback * gset Z :=
  let fired :=
    CanvasGameGrid.handleClick select false canvas viewport rows cols blocks
      selectedBlocks clientX clientY in
  (fired, fold_left deliver fired selectedBlocks).

End MintingInterface.

(** ** The elimination worker ([vrf-worker.js]) *)

Module VrfWorker.

(** The conversion to a 32-bit signed integer that the bit operators
    apply to their operands and result. *)
Definition toInt32 (z : Z) : Z := (z + 2 ^ 31) mod 2 ^ 32 - 2 ^ 31.

(** The rendering of an integer inside a template string. *)
Definition toString (n : Z) : string := NilZero.string_of_int (Z.to_int n).

Definition charCode (c : ascii) : Z := Z.of_N (N_of_ascii c).

(** One turn of the hash loop. *)
Definition hashStep (hash : Z) (c : ascii) : Z :=
  let char := charCode c in
  let hash := toInt32 (Z.shiftl (toInt32 hash) 5) - hash + char in
  toInt32 (Z.land (toInt32 hash) (toInt32 hash)).

Definition generateBlockRandomness (seed : string) (roundNumber blockId : Z) : Q :=
  let combined :=
    String.append seed
      (String.append "_"
         (String.append (toString roundNumber)
            (String.append "_" (toString blockId)))) in
  let hash := fold_left hashStep (list_ascii_of_string combined) 0 in
  (inject_Z (Z.abs hash) / 2147483647)%Q.

Record Result := { r_blockId : Z; r_eliminated : bool; r_vrfValue : Q }.

(** The message posted back: [type] is ['ELIMINATIONS_CALCULATED']. *)
Record Message := {
  m_results : list Result; m_roundNumber : Z; m_eliminationRate : Q
}.

(** The body of the [for ... of] loop: one [results.push]. *)
Definition pushResult (seed : string) (roundNumber : Z) (eliminationRate : Q)
    (results : list Result) (blockId : Z) : list Result :=
  let vrfValue := generateBlockRandomness seed roundNumber blockId in
  let eliminated := JsMath.ltb vrfValue eliminationRate in
  results ++ [{| r_blockId := blockId; r_eliminated := eliminated;
                 r_vrfValue := vrfValue |}].

Definition calculateEliminations (seed : string) (roundNumber : Z)
    (blockIds : list Z) (eliminationRate : Q) : Message :=
  let results := fold_left (pushResult seed roundNumber eliminationRate) blockIds [] in
  {| m_results := results; m_roundNumber := roundNumber;
     m_eliminationRate := eliminationRate |}.

End VrfWorker.

(** ** Notions the properties are stated with *)

Module Notions.

(** The selector's table as the specification words it: at most 1,000
    cells, per-cell markup on both device classes; above that, the touch
    canvas on a touch device; on a desktop the virtualized markup up to
    5,000 cells and the desktop canvas beyond. *)
Definition spec_select (totalCells : Z) (touch : bool) : GameGrid.Backend :=
  if totalCells <=? 1000 then GameGrid.PerCellMarkup
  else if touch then GameGrid.MobileOptimizedCanvas
  else if totalCells <=? 5000 then GameGrid.VirtualizedGameGrid
  else GameGrid.CanvasGameGrid.

(** The entry the loop pushes for one block id. *)
Definition entry (seed : string) (roundNumber : Z) (eliminationRate : Q)
    (blockId : Z) : VrfWorker.Result :=
  {| VrfWorker.r_blockId := blockId;
     VrfWorker.r_eliminated :=
       JsMath.ltb (VrfWorker.generateBlockRandomness seed roundNumber blockId) eliminationRate;
     VrfWorker.r_vrfValue := VrfWorker.generateBlockRandomness seed roundNumber blockId |}.

(** A record to run the handlers on. *)
Definition sampleBlock (id : Z) (s : Status) : BlockData :=
  {| gameId := "g"; blockId := id; position := {| row := 0; col := id |};
     status := s; ownerId := None; purchasePrice := 1 |}.

(** The grid's painted extent, from its origin to the far edge of its
    last row and column, lies outside the canvas rectangle. *)
Definition offScreen (cellSize pitch : Q) (viewport : ViewPort)
    (width height : Q) (rows cols : Z) : Prop :=
  (width < View.x viewport \/ height < View.y viewport \/
   View.x viewport + (inject_Z cols - 1) * pitch + cellSize < 0 \/
   View.y viewport + (inject_Z rows - 1) * pitch + cellSize < 0)%Q.

(** The grid lies outside the canvas rectangle by at least [margin]. *)
Definition offScreenBy (margin pitch : Q) (viewport : ViewPort)
    (width height : Q) (rows cols : Z) : Prop :=
  (width + margin <= View.x viewport \/ height + margin <= View.y viewport \/
   View.x viewport + inject_Z cols * pitch + margin <= 0 \/
   View.y viewport + inject_Z rows * pitch + margin <= 0)%Q.

(** Half a unit in the last place of 1, for doubles: 2^-53. *)
Definition eps : Q := 1 # 9007199254740992.

(** The zoom lies between [lo] and [hi]. *)
Definition inBounds (lo hi : Q) (viewport : ViewPort) : Prop :=
  (lo <= View.zoom viewport <= hi)%Q.

End Notions.

(** * Part II: properties *)

(** ** Facts about the number helpers *)

Module JsMathFacts.

Lemma max_cases (a b : Q) :
  (a <= b /\ JsMath.max a b = b)%Q \/ (b < a /\ JsMath.max a b = a)%Q.
Proof.
  unfold JsMath.max. destruct (Qle_bool a b) eqn:E.
  - left. split; [now apply Qle_bool_iff | reflexivity].
  - right. split; [|reflexivity].
    apply Qnot_le_lt. intros H. apply Qle_bool_iff in H. congruence.
Qed.

Lemma min_cases (a b : Q) :
  (a <= b /\ JsMath.min a b = a)%Q \/ (b < a /\ JsMath.min a b = b)%Q.
Proof.
  unfold JsMath.min. destruct (Qle_bool a b) eqn:E.
  - left. split; [now apply Qle_bool_iff | reflexivity].
  - right. split; [|reflexivity].
    apply Qnot_le_lt. intros H. apply Qle_bool_iff in H. congruence.
Qed.

Lemma max_lb_l a b : (a <= JsMath.max a b)%Q.
Proof. destruct (max_cases a b) as [[H ->]|[H ->]]; lra. Qed.

Lemma max_lb_r a b : (b <= JsMath.max a b)%Q.
Proof. destruct (max_cases a b) as [[H ->]|[H ->]]; lra. Qed.

Lemma min_ub_l a b : (JsMath.min a b <= a)%Q.
Proof. destruct (min_cases a b) as [[H ->]|[H ->]]; lra. Qed.

Lemma min_ub_r a b : (JsMath.min a b <= b)%Q.
Proof. destruct (min_cases a b) as [[H ->]|[H ->]]; lra. Qed.

(** [Math.max lo (Math.min hi v)], the clamp of the zoom handlers. *)
Lemma clamp_bounds lo hi v :
  (lo <= hi)%Q -> (lo <= JsMath.max lo (JsMath.min hi v) <= hi)%Q.
Proof.
  intros Hlh. split; [apply max_lb_l|].
  destruct (max_cases lo (JsMath.min hi v)) as [[H ->]|[H ->]];
    [apply min_ub_l | exact Hlh].
Qed.

Lemma ltb_lt a b : JsMath.ltb a b = true <-> (a < b)%Q.
Proof.
  unfold JsMath.ltb. rewrite negb_true_iff. split.
  - intros E. apply Qnot_le_lt. intros H. apply Qle_bool_iff in H. congruence.
  - intros H. destruct (Qle_bool b a) eqn:E; [|reflexivity].
    apply Qle_bool_iff in E. lra.
Qed.

Lemma ltb_ge a b : JsMath.ltb a b = false <-> (b <= a)%Q.
Proof.
  unfold JsMath.ltb. rewrite negb_false_iff. apply Qle_bool_iff.
Qed.

Lemma gtb_gt a b : JsMath.gtb a b = true <-> (b < a)%Q.
Proof. apply ltb_lt. Qed.

Lemma gtb_le a b : JsMath.gtb a b = false <-> (a <= b)%Q.
Proof. apply ltb_ge. Qed.

Lemma geb_ge a b : JsMath.geb a b = true <-> (b <= a)%Q.
Proof. apply Qle_bool_iff. Qed.

End JsMathFacts.

(** ** Wheel zoom of the desktop canvas *)

Module WheelZoom.
Import CanvasGameGrid.

Lemma pitch_ge_3 viewport : (3 <= pitch viewport)%Q.
Proof.
  unfold pitch, cellSize, gap.
  pose proof (JsMathFacts.max_lb_l 2 (baseCellSize * View.zoom viewport)).
  pose proof (JsMathFacts.max_lb_l 1 (View.zoom viewport)). lra.
Qed.

Lemma pitch_linear viewport :
  (1 <= View.zoom viewport)%Q -> (pitch viewport == 9 * View.zoom viewport)%Q.
Proof.
  intros Hz. unfold pitch, cellSize, gap, baseCellSize.
  destruct (JsMathFacts.max_cases 2 (8 * View.zoom viewport)) as [[H1 ->]|[H1 ->]];
  destruct (JsMathFacts.max_cases 1 (View.zoom viewport)) as [[H2 ->]|[H2 ->]]; lra.
Qed.

(** Where the pitch is proportional to the zoom (zoom at least 1 before
    and after), the wheel handler keeps the cell-space point under the
    cursor fixed. *)
Lemma handleWheel_anchor_linear viewport rect clientX clientY deltaY :
  let viewport' := handleWheel viewport (Some rect) clientX clientY deltaY in
  (1 <= View.zoom viewport)%Q -> (1 <= View.zoom viewport')%Q ->
  (worldX viewport' rect clientX == worldX viewport rect clientX)%Q /\
  (worldY viewport' rect clientY == worldY viewport rect clientY)%Q.
Proof.
  intros viewport' Hz Hz'. unfold worldX, worldY.
  rewrite (pitch_linear viewport Hz), (pitch_linear viewport' Hz').
  subst viewport'. simpl in *.
  set (nz := JsMath.max _ _) in *.
  split; field; split; lra.
Qed.

(** C1.  The wheel handler does not keep the cell under the cursor fixed
    once the zoom drops below 1, where [gap] stops following the zoom.
    From the initial camera (offset 0, zoom 1) with the cursor at 91px,
    one wheel notch ([deltaY = 100], factor 0.9) moves the cell-space
    point under the cursor from 91/9 (column 10) to 819/82 (column 9);
    [deltaY = 500] (factor 0.5) moves it to 91/10. *)
Theorem handleWheel_anchor_drift :
  let rect := {| left := 0; top := 0 |} in
  let v09 := handleWheel initialViewport (Some rect) 91 91 100 in
  let v05 := handleWheel initialViewport (Some rect) 91 91 500 in
  (View.zoom v09 == 0.9)%Q /\ (View.zoom v05 == 0.5)%Q /\
  (worldX initialViewport rect 91 == 91 # 9)%Q /\
  (worldX v09 rect 91 == 819 # 82)%Q /\
  (worldX v05 rect 91 == 91 # 10)%Q /\
  hitCol initialViewport rect 91 = 10 /\ hitCol v09 rect 91 = 9 /\
  hitCol v05 rect 91 = 9 /\
  ~ (worldX v09 rect 91 == worldX initialViewport rect 91)%Q /\
  ~ (worldX v05 rect 91 == worldX initialViewport rect 91)%Q.
Proof.
  cbv zeta.
  repeat split; try reflexivity; intros H; vm_compute in H; discriminate.
Qed.

End WheelZoom.

(** ** The strategy selector *)

Module Selector.
Import GameGrid Notions.

(** C3.  The backend [GameGrid] renders is the table's entry for the total
    cell count and the device class, and depends on nothing else; a
    200,000-cell grid on a touch device gets the touch canvas. *)
Theorem render_is_spec_select :
  (forall game window,
     render game window =
     spec_select (rows (gridSize (config game)) * cols (gridSize (config game)))
                 (isMobile window)) /\
  spec_select 200000 true = MobileOptimizedCanvas.
Proof.
  split; [|reflexivity].
  intros game window. unfold render, spec_select.
  set (total := rows _ * cols _).
  destruct (isMobile window); simpl;
    destruct (Z.gtb_spec total 1000), (Z.leb_spec total 1000); try lia;
    try reflexivity;
    destruct (Z.gtb_spec total 5000), (Z.leb_spec total 5000); try lia;
    reflexivity.
Qed.

End Selector.

(** ** The elimination worker *)

Module VrfFacts.
Import VrfWorker Notions.

Lemma push_loop seed roundNumber rate blockIds : forall results,
  fold_left (pushResult seed roundNumber rate) blockIds results =
  results ++ map (entry seed roundNumber rate) blockIds.
Proof.
  induction blockIds as [|blockId rest IH]; intros results; simpl.
  - now rewrite app_nil_r.
  - rewrite IH. unfold pushResult at 1. fold (entry seed roundNumber rate blockId).
    now rewrite <- app_assoc.
Qed.

(** C10.  The worker's result list has one entry per input block id, in
    input order; each entry's [vrfValue] is [generateBlockRandomness] of
    the seed, the round number and that block id, and its [eliminated]
    flag says whether that value is below the elimination rate. *)
Theorem calculateEliminations_results seed roundNumber blockIds eliminationRate :
  let results :=
    m_results (calculateEliminations seed roundNumber blockIds eliminationRate) in
  length results = length blockIds /\
  map r_blockId results = blockIds /\
  Forall (fun r =>
            r_vrfValue r = generateBlockRandomness seed roundNumber (r_blockId r) /\
            (r_eliminated r = true <-> (r_vrfValue r < eliminationRate)%Q))
         results.
Proof.
  unfold calculateEliminations. simpl. rewrite push_loop. simpl.
  repeat split.
  - now rewrite length_map.
  - rewrite map_map. simpl. apply map_id.
  - apply Forall_forall. intros r Hr. apply list_elem_of_In, in_map_iff in Hr as [blockId [<- _]].
    simpl. split; [reflexivity | apply JsMathFacts.ltb_lt].
Qed.

End VrfFacts.

(** ** Selection *)

Module Selection.
Import GameGrid MintingInterface Notions.

Lemma blockMap_fold_None blocks id : forall (map : gmap Z BlockData),
  find_block blocks id = None -> map !! id = None ->
  fold_left (fun map block => <[blockId block := block]> map) blocks map !! id = None.
Proof.
  induction blocks as [|b rest IH]; intros map Hfind Hmap; simpl in *.
  - exact Hmap.
  - destruct (Z.eqb_spec (blockId b) id) as [E|E]; [discriminate|].
    apply IH; [exact Hfind|]. now rewrite lookup_insert_ne.
Qed.

(** An id absent from the [blocks] array is absent from the [blockMap]. *)
Lemma blockMap_None blocks id :
  find_block blocks id = None -> blockMap blocks !! id = None.
Proof. intros H. apply blockMap_fold_None; [exact H | apply lookup_empty]. Qed.

Lemma find_block_id blocks id b : find_block blocks id = Some b -> blockId b = id.
Proof.
  induction blocks as [|b' rest IH]; simpl; [discriminate|].
  destruct (Z.eqb_spec (blockId b') id) as [E|E]; [|exact IH].
  intros [= <-]. exact E.
Qed.

Lemma Status_eqb_eq a b : Status_eqb a b = true <-> a = b.
Proof. destruct a, b; simpl; split; congruence. Qed.

Lemma selected_in (s : gset Z) (id : Z) : id ∈ handleBlockSelect s id.
Proof. unfold handleBlockSelect. apply elem_of_union_r, elem_of_singleton. reflexivity. Qed.

Lemma deselected_out (s : gset Z) (id : Z) : id ∉ handleBlockDeselect s id.
Proof.
  unfold handleBlockDeselect. rewrite elem_of_difference, elem_of_singleton.
  intros [_ H]. now apply H.
Qed.

(** [new Set([...prev, id])] followed by [delete(id)], and the reverse. *)
Lemma select_deselect (s : gset Z) (id : Z) :
  id ∉ s -> handleBlockDeselect (handleBlockSelect s id) id = s.
Proof.
  intros Hout. unfold handleBlockDeselect, handleBlockSelect. apply set_eq. intros k.
  rewrite elem_of_difference, elem_of_union, elem_of_singleton. split.
  - intros [[Hk|Hk] Hne]; [exact Hk | contradiction].
  - intros Hk. split; [now left|]. intros ->. contradiction.
Qed.

Lemma deselect_select (s : gset Z) (id : Z) :
  id ∈ s -> handleBlockSelect (handleBlockDeselect s id) id = s.
Proof.
  intros Hin. unfold handleBlockDeselect, handleBlockSelect. apply set_eq. intros k.
  rewrite elem_of_union, elem_of_difference, elem_of_singleton. split.
  - intros [[Hk _] | ->]; assumption.
  - intros Hk. destruct (decide (k = id)) as [-> | Hne]; [now right | now left].
Qed.

(** A toggle on a cell with a record in the store. *)
Lemma toggle_recorded (blocks : list BlockData) (selectedBlocks : gset Z)
    (id : Z) (block : BlockData) :
  find_block blocks id = Some block ->
  (status block <> unsold -> toggle blocks selectedBlocks id = ([], selectedBlocks)) /\
  (status block = unsold ->
   let first := toggle blocks selectedBlocks id in
   let second := toggle blocks (snd first) id in
   snd second = selectedBlocks /\
   (id ∉ selectedBlocks ->
    fst first = [onBlockSelect id] /\ id ∈ snd first /\
    fst second = [onBlockDeselect id]) /\
   (id ∈ selectedBlocks ->
    fst first = [onBlockDeselect id] /\ (id ∉ snd first) /\
    fst second = [onBlockSelect id])).
Proof.
  intros Hfind. unfold toggle, handleBlockClick. rewrite Hfind. split.
  - intros Hs. destruct (Status_eqb (status block) unsold) eqn:E; [|reflexivity].
    apply Status_eqb_eq in E. contradiction.
  - intros Hs. rewrite Hs. cbn [Status_eqb].
    destruct (decide (id ∈ selectedBlocks)) as [Hin|Hout]; cbn [fst snd fold_left deliver].
    + pose proof (deselected_out selectedBlocks id) as Hout'.
      destruct (decide (id ∈ handleBlockDeselect selectedBlocks id)) as [Hin'|_];
        [contradiction|].
      cbn [fst snd fold_left deliver].
      split; [now apply deselect_select|].
      split; [intros Hout; contradiction | intros _; repeat split; exact Hout'].
    + pose proof (selected_in selectedBlocks id) as Hin'.
      destruct (decide (id ∈ handleBlockSelect selectedBlocks id)) as [_|Hout'];
        [|contradiction].
      cbn [fst snd fold_left deliver].
      split; [now apply select_deselect|].
      split; [intros _; repeat split; exact Hin' | intros Hin; contradiction].
Qed.

Lemma toggle_missing (blocks : list BlockData) (selectedBlocks : gset Z) (id : Z) :
  find_block blocks id = None -> toggle blocks selectedBlocks id = ([], selectedBlocks).
Proof. intros Hfind. unfold toggle, handleBlockClick. now rewrite Hfind. Qed.

(** C7, as stated, fails for an unsold cell without a record.  With an
    empty store the per-cell grid gives cell 0 of a 2 by 2 grid the
    status [unsold] and wires its click, yet the first toggle neither
    fires [onBlockSelect] nor adds the cell to the selection. *)
Lemma toggle_unsold_counterexample :
  let game := {| game_id := "g";
                 config := {| gridSize := {| rows := 2; cols := 2 |};
                              blockPrice := 1 |} |} in
  status (gridBlock game [] 0) = unsold /\
  isSelectable select (gridBlock game [] 0) = true /\
  clickBlock select [] ∅ (gridBlock game [] 0) = [] /\
  fst (toggle [] ∅ 0) <> [onBlockSelect 0] /\
  ~ (0 ∈ snd (toggle [] ∅ 0)).
Proof.
  cbv zeta. split; [reflexivity|]. split; [reflexivity|]. split; [reflexivity|].
  split; [discriminate|]. unfold toggle; simpl. apply not_elem_of_empty.
Qed.

(** C7, amended.  The status of a cell is the one the grid renders it
    with: that of its record, or [unsold] when the store has no record
    for it.  A toggle on a cell whose status is not [unsold] fires no
    callback and leaves the selection as it is, and so does a toggle on
    a cell that is [unsold] only for want of a record.  For a cell whose
    record is [unsold], two toggles in a row restore the selection: an
    unselected cell is first added ([onBlockSelect]) and then removed
    ([onBlockDeselect]), a selected one the other way round.  Two
    toggles in a row restore the selection for every cell. *)
Theorem toggle_invariants (game : GameData) (blocks : list BlockData)
    (selectedBlocks : gset Z) (id : Z) :
  snd (toggle blocks (snd (toggle blocks selectedBlocks id)) id) = selectedBlocks /\
  (status (gridBlock game blocks id) <> unsold ->
   toggle blocks selectedBlocks id = ([], selectedBlocks)) /\
  (find_block blocks id = None ->
   status (gridBlock game blocks id) = unsold /\
   toggle blocks selectedBlocks id = ([], selectedBlocks)) /\
  (forall block,
     find_block blocks id = Some block -> status block = unsold ->
     status (gridBlock game blocks id) = unsold /\
     let first := toggle blocks selectedBlocks id in
     let second := toggle blocks (snd first) id in
     snd second = selectedBlocks /\
     (id ∉ selectedBlocks ->
      fst first = [onBlockSelect id] /\ id ∈ snd first /\
      fst second = [onBlockDeselect id]) /\
     (id ∈ selectedBlocks ->
      fst first = [onBlockDeselect id] /\ (id ∉ snd first) /\
      fst second = [onBlockSelect id])).
Proof.
  unfold gridBlock.
  destruct (find_block blocks id) as [block|] eqn:Hfind.
  - destruct (toggle_recorded blocks selectedBlocks id block Hfind) as [Hother Hunsold].
    assert (status block = unsold \/ status block <> unsold) as [Hs|Hs]
      by (destruct (status block); [left | right | right]; congruence).
    + split; [exact (proj1 (Hunsold Hs))|]. split; [intros H; contradiction|].
      split; [discriminate|]. intros block' [= <-] _. split; [exact Hs | exact (Hunsold Hs)].
    + split; [rewrite (Hother Hs); cbn [snd]; now rewrite (Hother Hs)|].
      split; [intros _; exact (Hother Hs)|].
      split; [discriminate|]. intros block' [= <-] Hs'. contradiction.
  - pose proof (toggle_missing blocks selectedBlocks id Hfind) as Hnone.
    split; [rewrite Hnone; cbn [snd]; now rewrite Hnone|]. split; [intros _; exact Hnone|].
    split; [intros _; split; [reflexivity | exact Hnone] | discriminate].
Qed.

Lemma toggle_invariants_witness :
  let game := {| game_id := "g";
                 config := {| gridSize := {| rows := 2; cols := 2 |};
                              blockPrice := 1 |} |} in
  let blocks := [sampleBlock 0 unsold; sampleBlock 1 alive] in
  (find_block blocks 0 = Some (sampleBlock 0 unsold) /\
   status (sampleBlock 0 unsold) = unsold /\
   snd (toggle blocks (snd (toggle blocks ∅ 0)) 0) = ∅ /\
   fst (toggle blocks ∅ 0) = [onBlockSelect 0]) /\
  (status (gridBlock game blocks 1) <> unsold /\ toggle blocks ∅ 1 = ([], ∅)) /\
  (find_block blocks 2 = None /\ toggle blocks ∅ 2 = ([], ∅)).
Proof.
  cbv zeta.
  pose (game := {| game_id := "g";
                   config := {| gridSize := {| rows := 2; cols := 2 |};
                                blockPrice := 1 |} |}).
  pose (blocks := [sampleBlock 0 unsold; sampleBlock 1 alive]).
  split; [|split].
  - destruct (toggle_invariants game blocks ∅ 0) as (_ & _ & _ & H).
    destruct (H (sampleBlock 0 unsold) eq_refl eq_refl) as (_ & Hback & Hout & _).
    split; [reflexivity|]. split; [reflexivity|]. split; [exact Hback|].
    exact (proj1 (Hout (not_elem_of_empty 0))).
  - assert (status (gridBlock game blocks 1) <> unsold) as Hs by discriminate.
    split; [exact Hs|].
    exact (proj1 (proj2 (toggle_invariants game blocks ∅ 1)) Hs).
  - split; [reflexivity|].
    exact (proj2 (proj1 (proj2 (proj2 (toggle_invariants game blocks ∅ 2))) eq_refl)).
Defined.

(** C8, as stated, fails: with an empty store a click on cell 0 of a grid
    in select mode fires nothing and does not add the cell to the
    selection, through the per-cell handler and the canvas handler
    alike, although the cell is rendered as an unsold one. *)
Lemma missing_record_toggle_counterexample :
  let game := {| game_id := "g";
                 config := {| gridSize := {| rows := 2; cols := 2 |};
                              blockPrice := 1 |} |} in
  let rect := {| left := 0; top := 0 |} in
  find_block [] 0 = None /\
  status (gridBlock game [] 0) = unsold /\
  isSelectable select (gridBlock game [] 0) = true /\
  ~ (0 ∈ snd (toggle [] ∅ 0)) /\
  toggle [] ∅ 0 = ([], ∅) /\
  CanvasGameGrid.hitRow CanvasGameGrid.initialViewport rect 4 = 0 /\
  CanvasGameGrid.hitCol CanvasGameGrid.initialViewport rect 4 = 0 /\
  toggleCanvas (Some rect) CanvasGameGrid.initialViewport 2 2 [] ∅ 4 4 = ([], ∅).
Proof.
  cbv zeta. repeat split; try reflexivity.
  unfold toggle; simpl. apply not_elem_of_empty.
Qed.

(** C8, amended.  A cell inside the grid without a record in the store is
    rendered as an unsold cell at the default price: the per-cell grid
    synthesizes that record, the canvas paints the unsold color.  A click
    on it in select mode fires no callback and leaves the selection
    unchanged: every click handler looks the id up in the store and
    returns when there is no record. *)
Theorem missing_record_default (game : GameData) (blocks : list BlockData)
    (selectedBlocks : gset Z) (id : Z) :
  find_block blocks id = None ->
  (status (gridBlock game blocks id) = unsold /\
   purchasePrice (gridBlock game blocks id) = blockPrice (config game) /\
   blockId (gridBlock game blocks id) = id) /\
  CanvasGameGrid.fillColor (blockMap blocks !! id)
    = CanvasGameGrid.c_unsold CanvasGameGrid.colors /\
  clickBlock select blocks selectedBlocks (gridBlock game blocks id) = [] /\
  toggle blocks selectedBlocks id = ([], selectedBlocks) /\
  (forall canvas viewport rows cols clientX clientY,
     CanvasGameGrid.hitRow viewport
       (match canvas with Some r => r | None => {| left := 0; top := 0 |} end)
       clientY * cols
     + CanvasGameGrid.hitCol viewport
         (match canvas with Some r => r | None => {| left := 0; top := 0 |} end)
         clientX = id ->
     toggleCanvas canvas viewport rows cols blocks selectedBlocks clientX clientY
     = ([], selectedBlocks)).
Proof.
  intros Hfind. pose proof (blockMap_None blocks id Hfind) as Hmap.
  unfold gridBlock, clickBlock, toggle, handleBlockClick. rewrite Hfind. simpl.
  rewrite Hfind, Hmap. simpl. repeat split.
  intros canvas viewport rows cols clientX clientY Hid.
  unfold toggleCanvas, CanvasGameGrid.handleClick.
  destruct canvas as [rect|]; [|reflexivity].
  rewrite Hid, Hmap. destruct (_ && _); reflexivity.
Qed.

Lemma missing_record_default_witness :
  find_block [sampleBlock 1 alive] 0 = None /\
  toggle [sampleBlock 1 alive] ∅ 0 = ([], ∅).
Proof.
  split; [reflexivity|].
  apply (missing_record_default
           {| game_id := "g";
              config := {| gridSize := {| rows := 2; cols := 2 |}; blockPrice := 1 |} |}
           [sampleBlock 1 alive] ∅ 0). reflexivity.
Defined.

End Selection.

(** ** Visibility culling *)

Module Culling.
Import Notions.

(** *** The loops *)

Lemma loopCells_length sy ey sx ex :
  length (loopCells sy ey sx ex) = (Z.to_nat (ey - sy) * Z.to_nat (ex - sx))%nat.
Proof.
  unfold loopCells.
  rewrite (flat_map_constant_length (c := Z.to_nat (ex - sx))).
  - now rewrite length_seqZ.
  - intros r _. now rewrite length_map, length_seqZ.
Qed.

Lemma loopCells_elem sy ey sx ex r c :
  In (r, c) (loopCells sy ey sx ex) <-> (sy <= r < ey /\ sx <= c < ex).
Proof.
  unfold loopCells. rewrite in_flat_map. split.
  - intros [r' [Hr Hc]]. apply in_map_iff in Hc as [c' [[= <- <-] Hc]].
    apply list_elem_of_In, elem_of_seqZ in Hr.
    apply list_elem_of_In, elem_of_seqZ in Hc. lia.
  - intros [Hr Hc]. exists r. split.
    + apply list_elem_of_In, elem_of_seqZ. lia.
    + apply in_map_iff. exists c. split; [reflexivity|].
      apply list_elem_of_In, elem_of_seqZ. lia.
Qed.

Lemma loopCells_nil sy ey sx ex :
  ey <= sy \/ ex <= sx -> loopCells sy ey sx ex = [].
Proof.
  intros H. apply length_zero_iff_nil. rewrite loopCells_length.
  destruct H; [replace (Z.to_nat (ey - sy)) with 0%nat by lia
              | replace (Z.to_nat (ex - sx)) with 0%nat by lia]; lia.
Qed.

Lemma filter_none {A} (P : A -> Prop) `{forall a, Decision (P a)} (l : list A) :
  (forall a, In a l -> ~ P a) -> filter P l = [].
Proof.
  induction l as [|a l IH]; intros Hall; [reflexivity|].
  rewrite filter_cons. destruct (decide (P a)) as [HP|_].
  - exfalso. apply (Hall a); [now left | exact HP].
  - apply IH. intros b Hb. apply Hall. now right.
Qed.

(** *** Rounding *)

Lemma inject_Z_sub (n m : Z) : (inject_Z (n - m) == inject_Z n - inject_Z m)%Q.
Proof. unfold Z.sub. now rewrite inject_Z_plus, inject_Z_opp. Qed.

Lemma ceiling_floor_span (a b : Q) :
  Qceiling b - Qfloor a <= Qceiling (b - a) + 1.
Proof.
  pose proof (Qlt_floor a) as Ha. pose proof (Qceiling_lt b) as Hb.
  pose proof (Qle_ceiling (b - a)) as Hc.
  rewrite inject_Z_plus in Ha. rewrite inject_Z_sub in Hb.
  assert (inject_Z (Qceiling b - Qfloor a) < inject_Z (Qceiling (b - a) + 2))%Q as H.
  { rewrite inject_Z_sub, inject_Z_plus.
    change (inject_Z 1) with 1%Q in *. change (inject_Z 2) with 2%Q. lra. }
  rewrite <- Zlt_Qlt in H. lia.
Qed.

Lemma floor_ge (n : Z) (q : Q) : (inject_Z n <= q)%Q -> n <= Qfloor q.
Proof. intros H. rewrite <- (Qfloor_Z n). now apply Qfloor_resp_le. Qed.

Lemma ceiling_le (n : Z) (q : Q) : (q <= inject_Z n)%Q -> Qceiling q <= n.
Proof. intros H. rewrite <- (Qceiling_Z n). now apply Qceiling_resp_le. Qed.

Lemma ceiling_nonneg (q : Q) : (0 <= q)%Q -> 0 <= Qceiling q.
Proof.
  intros H. pose proof (Qle_ceiling q) as Hc.
  assert (inject_Z (-1) < inject_Z (Qceiling q))%Q as Hlt
    by (change (inject_Z (-1)) with (-1)%Q; lra).
  rewrite <- Zlt_Qlt in Hlt. lia.
Qed.

Lemma span_count (n bound : Z) :
  n <= bound -> 0 <= bound -> Z.of_nat (Z.to_nat n) <= bound.
Proof. lia. Qed.

(** *** Pitch *)

Lemma canvas_pitch_pos viewport : (0 < CanvasGameGrid.pitch viewport)%Q.
Proof. pose proof (WheelZoom.pitch_ge_3 viewport). lra. Qed.

Lemma canvas_cellSize_pos viewport : (0 < CanvasGameGrid.cellSize viewport)%Q.
Proof.
  unfold CanvasGameGrid.cellSize.
  pose proof (JsMathFacts.max_lb_l 2 (CanvasGameGrid.baseCellSize * View.zoom viewport)).
  lra.
Qed.

Lemma mobile_pitch_pos viewport : (0 < MobileOptimizedCanvas.pitch viewport)%Q.
Proof.
  unfold MobileOptimizedCanvas.pitch, MobileOptimizedCanvas.cellSize,
    MobileOptimizedCanvas.gap.
  pose proof (JsMathFacts.max_lb_l 1
                (MobileOptimizedCanvas.baseCellSize * View.zoom viewport)).
  pose proof (JsMathFacts.max_lb_l 0.5 (View.zoom viewport)). lra.
Qed.

(** *** The span of one axis *)

(** Touch canvas: the indices between [floor((-o - buffer) / p)] and
    [ceil((size - o + buffer) / p)]. *)
Lemma mobile_axis_span (o size p : Q) (n : Z) :
  (0 < p)%Q -> (0 <= size)%Q ->
  let buffer := MobileOptimizedCanvas.buffer in
  let bound := Qceiling (size / p + 2 * (buffer / p)) + 1 in
  Z.min n (Qceiling ((size - o + buffer) / p))
    - Z.max 0 (Qfloor ((- o - buffer) / p)) <= bound /\ 0 <= bound.
Proof.
  intros Hp Hsize buffer bound.
  pose proof (ceiling_floor_span ((- o - buffer) / p) ((size - o + buffer) / p)) as H.
  assert ((size - o + buffer) / p - (- o - buffer) / p
          == size / p + 2 * (buffer / p))%Q as E by (field; lra).
  rewrite E in H. fold bound in H.
  assert (0 <= size / p + 2 * (buffer / p))%Q as Hnn.
  { assert (0 <= size / p)%Q by (apply Qle_shift_div_l; lra).
    assert (0 <= buffer / p)%Q
      by (apply Qle_shift_div_l; [lra | unfold buffer, MobileOptimizedCanvas.buffer; lra]).
    lra. }
  apply ceiling_nonneg in Hnn. subst bound. lia.
Qed.

(** Desktop canvas: the indices between [floor(-o / p)] and
    [ceil((size - o) / p) + 1]. *)
Lemma canvas_axis_span (o size p : Q) (n : Z) :
  (0 < p)%Q -> (0 <= size)%Q ->
  let bound := Qceiling (size / p) + 2 in
  Z.min n (Qceiling ((size - o) / p) + 1) - Z.max 0 (Qfloor (- o / p)) <= bound
  /\ 0 <= bound.
Proof.
  intros Hp Hsize bound.
  pose proof (ceiling_floor_span (- o / p) ((size - o) / p)) as H.
  assert ((size - o) / p - - o / p == size / p)%Q as E by (field; lra).
  rewrite E in H.
  assert (0 <= size / p)%Q as Hnn by (apply Qle_shift_div_l; lra).
  apply ceiling_nonneg in Hnn. subst bound. lia.
Qed.

Lemma area_count (h w bh bw : Z) :
  h <= bh -> 0 <= bh -> w <= bw -> 0 <= bw ->
  Z.of_nat (Z.to_nat h * Z.to_nat w) <= bw * bh.
Proof.
  intros Hh Hbh Hw Hbw. rewrite Nat2Z.inj_mul, Z.mul_comm.
  apply Z.mul_le_mono_nonneg; lia.
Qed.

(** C2, as stated, fails.  Desktop canvas (no pixel buffer, so
    [bufferCells = 0]): a 20 by 20 grid seen through a 90 by 90 canvas at
    zoom 1 (pitch 9) with offset (-8, -8) has 12 * 12 = 144 cells in the
    loops' range, 121 of them painted, against a bound of 10 * 10.
    Touch canvas (buffer 20px, pitch 7 at zoom 1): a 100 by 100 grid in a
    100 by 100 canvas at offset (-23.5, -23.5) has 21 * 21 = 441 cells in
    range against a bound of 20 * 20. *)
Lemma culling_bound_counterexample :
  let v := {| View.x := -8; View.y := -8; View.zoom := 1 |} in
  let p := CanvasGameGrid.pitch v in
  let m := {| View.x := -23.5; View.y := -23.5; View.zoom := 1 |} in
  let q := MobileOptimizedCanvas.pitch m in
  let bufferCells := (MobileOptimizedCanvas.buffer / q)%Q in
  (Qceiling (90 / p + 2 * 0) * Qceiling (90 / p + 2 * 0) = 100 /\
   length (CanvasGameGrid.enumerated v 90 90 20 20) = 144%nat /\
   length (CanvasGameGrid.drawGrid v 90 90 20 20 []) = 121%nat) /\
  (Qceiling (100 / q + 2 * bufferCells) * Qceiling (100 / q + 2 * bufferCells) = 400 /\
   length (MobileOptimizedCanvas.enumerated m 100 100 100 100) = 441%nat).
Proof. vm_compute. repeat split. Qed.

(** C2, amended.  The number of cells in the range the culling loops run
    over is at most [(ceil(W/p + 2*bufferCells) + 1) * (ceil(H/p +
    2*bufferCells) + 1)] for the touch canvas, with [bufferCells] its 20px
    buffer in cells, and at most [(ceil(W/p) + 2) * (ceil(H/p) + 2)] for
    the desktop canvas, which has no pixel buffer and one extra trailing
    cell; neither bound mentions the grid's rows and columns. *)
Theorem culling_bound (viewport : ViewPort) (width height : Q) (rows cols : Z) :
  (0 <= width)%Q -> (0 <= height)%Q ->
  (let p := MobileOptimizedCanvas.pitch viewport in
   let bufferCells := (MobileOptimizedCanvas.buffer / p)%Q in
   Z.of_nat (length (MobileOptimizedCanvas.enumerated viewport width height rows cols))
   <= (Qceiling (width / p + 2 * bufferCells) + 1)
      * (Qceiling (height / p + 2 * bufferCells) + 1)) /\
  (let p := CanvasGameGrid.pitch viewport in
   Z.of_nat (length (CanvasGameGrid.enumerated viewport width height rows cols))
   <= (Qceiling (width / p) + 2) * (Qceiling (height / p) + 2)).
Proof.
  intros Hw Hh. split; cbv zeta.
  - unfold MobileOptimizedCanvas.enumerated, MobileOptimizedCanvas.visibleArea.
    cbn [MobileOptimizedCanvas.visibleStartX MobileOptimizedCanvas.visibleEndX
         MobileOptimizedCanvas.visibleStartY MobileOptimizedCanvas.visibleEndY].
    rewrite loopCells_length.
    pose proof (mobile_pitch_pos viewport) as Hp.
    destruct (mobile_axis_span (View.x viewport) width _ cols Hp Hw) as [Hx Hbx].
    destruct (mobile_axis_span (View.y viewport) height _ rows Hp Hh) as [Hy Hby].
    now apply area_count.
  - unfold CanvasGameGrid.enumerated, CanvasGameGrid.visibleArea.
    cbn [CanvasGameGrid.visibleStartX CanvasGameGrid.visibleEndX
         CanvasGameGrid.visibleStartY CanvasGameGrid.visibleEndY].
    rewrite loopCells_length.
    pose proof (canvas_pitch_pos viewport) as Hp.
    destruct (canvas_axis_span (View.x viewport) width _ cols Hp Hw) as [Hx Hbx].
    destruct (canvas_axis_span (View.y viewport) height _ rows Hp Hh) as [Hy Hby].
    now apply area_count.
Qed.

Lemma culling_bound_witness :
  (0 <= 350)%Q /\ (0 <= 400)%Q /\
  Z.of_nat (length (CanvasGameGrid.enumerated
                      CanvasGameGrid.initialViewport 350 400 1000 1000))
  <= (Qceiling (350 / CanvasGameGrid.pitch CanvasGameGrid.initialViewport) + 2)
     * (Qceiling (400 / CanvasGameGrid.pitch CanvasGameGrid.initialViewport) + 2).
Proof.
  assert (0 <= 350)%Q as Hw by lra. assert (0 <= 400)%Q as Hh by lra.
  split; [exact Hw|]. split; [exact Hh|].
  exact (proj2 (culling_bound CanvasGameGrid.initialViewport 350 400 1000 1000 Hw Hh)).
Defined.

(** *** Containment *)

Lemma canvas_range (viewport : ViewPort) (width height : Q) (rows cols : Z) :
  let v := CanvasGameGrid.visibleArea viewport width height rows cols in
  (0 <= CanvasGameGrid.visibleStartX v /\ CanvasGameGrid.visibleEndX v <= cols /\
   0 <= CanvasGameGrid.visibleStartY v /\ CanvasGameGrid.visibleEndY v <= rows) /\
  (forall r c,
     In (r, c) (CanvasGameGrid.enumerated viewport width height rows cols) ->
     0 <= r < rows /\ 0 <= c < cols).
Proof.
  cbv zeta. split; [simpl; lia|].
  intros r c Hin. unfold CanvasGameGrid.enumerated in Hin.
  apply loopCells_elem in Hin. simpl in Hin. lia.
Qed.

Lemma mobile_range (viewport : ViewPort) (width height : Q) (rows cols : Z) :
  let v := MobileOptimizedCanvas.visibleArea viewport width height rows cols in
  (0 <= MobileOptimizedCanvas.visibleStartX v
   /\ MobileOptimizedCanvas.visibleEndX v <= cols
   /\ 0 <= MobileOptimizedCanvas.visibleStartY v
   /\ MobileOptimizedCanvas.visibleEndY v <= rows) /\
  (forall r c,
     In (r, c) (MobileOptimizedCanvas.enumerated viewport width height rows cols) ->
     0 <= r < rows /\ 0 <= c < cols).
Proof.
  cbv zeta. split; [simpl; lia|].
  intros r c Hin. unfold MobileOptimizedCanvas.enumerated in Hin.
  apply loopCells_elem in Hin. simpl in Hin. lia.
Qed.

(** *** Off-screen grids *)

(** An index below [n] lies at most [n - 1] pitches from the origin. *)
Lemma index_extent (i n : Z) (p : Q) :
  (0 < p)%Q -> 0 <= i < n ->
  (0 <= inject_Z i * p /\ inject_Z i * p <= (inject_Z n - 1) * p)%Q.
Proof.
  intros Hp [Hi Hn].
  assert (0 <= inject_Z i)%Q as H0 by (change 0%Q with (inject_Z 0); now rewrite <- Zle_Qle).
  assert (inject_Z i <= inject_Z n - 1)%Q as H1.
  { change 1%Q with (inject_Z 1). rewrite <- inject_Z_sub, <- Zle_Qle. lia. }
  split; [apply Qmult_le_0_compat; lra | apply Qmult_le_compat_r; lra].
Qed.

Lemma canvas_offScreen_unpainted viewport width height rows cols blocks :
  offScreen (CanvasGameGrid.cellSize viewport) (CanvasGameGrid.pitch viewport)
    viewport width height rows cols ->
  CanvasGameGrid.drawGrid viewport width height rows cols blocks = [].
Proof.
  intros Hoff. unfold CanvasGameGrid.drawGrid. rewrite filter_none; [reflexivity|].
  intros [r c] Hin Hout. apply canvas_range in Hin as [Hr Hc].
  pose proof (canvas_pitch_pos viewport) as Hp.
  destruct (index_extent r rows _ Hp Hr) as [Hr0 Hr1].
  destruct (index_extent c cols _ Hp Hc) as [Hc0 Hc1].
  unfold CanvasGameGrid.outsideCanvas, CanvasGameGrid.cellX, CanvasGameGrid.cellY in Hout.
  cbn [fst snd] in Hout.
  apply orb_false_elim in Hout as [Hout Hy]. apply orb_false_elim in Hout as [Hout Hx].
  apply orb_false_elim in Hout as [Hl Ht].
  apply JsMathFacts.ltb_ge in Hl, Ht. apply JsMathFacts.gtb_le in Hx, Hy.
  destruct Hoff as [H|[H|[H|H]]]; lra.
Qed.

Lemma mobile_offScreen_unpainted viewport width height rows cols :
  offScreen (MobileOptimizedCanvas.cellSize viewport)
    (MobileOptimizedCanvas.pitch viewport) viewport width height rows cols ->
  MobileOptimizedCanvas.blocksToRender viewport width height rows cols = [].
Proof.
  intros Hoff. unfold MobileOptimizedCanvas.blocksToRender. apply filter_none.
  intros [r c] Hin Hon. apply mobile_range in Hin as [Hr Hc].
  pose proof (mobile_pitch_pos viewport) as Hp.
  destruct (index_extent r rows _ Hp Hr) as [Hr0 Hr1].
  destruct (index_extent c cols _ Hp Hc) as [Hc0 Hc1].
  unfold MobileOptimizedCanvas.onCanvas, MobileOptimizedCanvas.cellX,
    MobileOptimizedCanvas.cellY in Hon.
  cbn [fst snd] in Hon.
  apply andb_prop in Hon as [Hon Hy]. apply andb_prop in Hon as [Hon Hx].
  apply andb_prop in Hon as [Hl Ht].
  apply JsMathFacts.geb_ge in Hl, Ht. apply JsMathFacts.ltb_lt in Hx, Hy.
  destruct Hoff as [H|[H|[H|H]]]; lra.
Qed.

Lemma canvas_offScreenBy_empty viewport width height rows cols :
  offScreenBy (CanvasGameGrid.pitch viewport) (CanvasGameGrid.pitch viewport)
    viewport width height rows cols ->
  CanvasGameGrid.enumerated viewport width height rows cols = [].
Proof.
  intros Hoff. pose proof (canvas_pitch_pos viewport) as Hp.
  unfold CanvasGameGrid.enumerated, CanvasGameGrid.visibleArea.
  cbn [CanvasGameGrid.visibleStartX CanvasGameGrid.visibleEndX
       CanvasGameGrid.visibleStartY CanvasGameGrid.visibleEndY].
  set (p := CanvasGameGrid.pitch viewport) in *.
  apply loopCells_nil. destruct Hoff as [H|[H|[H|H]]].
  - right. assert (Qceiling ((width - View.x viewport) / p) <= -1).
    { apply ceiling_le. apply Qle_shift_div_r; [exact Hp|].
      change (inject_Z (-1)) with (-1)%Q. lra. }
    lia.
  - left. assert (Qceiling ((height - View.y viewport) / p) <= -1).
    { apply ceiling_le. apply Qle_shift_div_r; [exact Hp|].
      change (inject_Z (-1)) with (-1)%Q. lra. }
    lia.
  - right. assert (cols <= Qfloor (- View.x viewport / p)).
    { apply floor_ge. apply Qle_shift_div_l; [exact Hp | lra]. }
    lia.
  - left. assert (rows <= Qfloor (- View.y viewport / p)).
    { apply floor_ge. apply Qle_shift_div_l; [exact Hp | lra]. }
    lia.
Qed.

Lemma mobile_offScreenBy_empty viewport width height rows cols :
  offScreenBy MobileOptimizedCanvas.buffer (MobileOptimizedCanvas.pitch viewport)
    viewport width height rows cols ->
  MobileOptimizedCanvas.enumerated viewport width height rows cols = [].
Proof.
  intros Hoff. pose proof (mobile_pitch_pos viewport) as Hp.
  unfold MobileOptimizedCanvas.enumerated, MobileOptimizedCanvas.visibleArea.
  cbn [MobileOptimizedCanvas.visibleStartX MobileOptimizedCanvas.visibleEndX
       MobileOptimizedCanvas.visibleStartY MobileOptimizedCanvas.visibleEndY].
  set (p := MobileOptimizedCanvas.pitch viewport) in *.
  set (b := MobileOptimizedCanvas.buffer) in *.
  apply loopCells_nil. destruct Hoff as [H|[H|[H|H]]].
  - right. assert (Qceiling ((width - View.x viewport + b) / p) <= 0).
    { apply ceiling_le. apply Qle_shift_div_r; [exact Hp|].
      change (inject_Z 0) with 0%Q. lra. }
    lia.
  - left. assert (Qceiling ((height - View.y viewport + b) / p) <= 0).
    { apply ceiling_le. apply Qle_shift_div_r; [exact Hp|].
      change (inject_Z 0) with 0%Q. lra. }
    lia.
  - right. assert (cols <= Qfloor ((- View.x viewport - b) / p)).
    { apply floor_ge. apply Qle_shift_div_l; [exact Hp | lra]. }
    lia.
  - left. assert (rows <= Qfloor ((- View.y viewport - b) / p)).
    { apply floor_ge. apply Qle_shift_div_l; [exact Hp | lra]. }
    lia.
Qed.

(** C4, as stated, fails in its last part.  Desktop canvas, 800 by 600,
    100 by 100 grid at zoom 1 panned to x = 801: the grid starts right of
    the canvas, yet the loops' range is columns 0..1 by rows 0..68, 68
    cells, none of which is painted.  Touch canvas, 350 by 350, same grid
    at the initial zoom panned to x = 355: the range holds 7 columns,
    none painted. *)
Lemma offscreen_range_counterexample :
  let v := {| View.x := 801; View.y := 0; View.zoom := 1 |} in
  let m := {| View.x := 355; View.y := 0; View.zoom := 0.3 |} in
  (offScreen (CanvasGameGrid.cellSize v) (CanvasGameGrid.pitch v) v 800 600 100 100 /\
   CanvasGameGrid.visibleArea v 800 600 100 100
   = {| CanvasGameGrid.visibleStartX := 0; CanvasGameGrid.visibleEndX := 1;
        CanvasGameGrid.visibleStartY := 0; CanvasGameGrid.visibleEndY := 68 |} /\
   length (CanvasGameGrid.enumerated v 800 600 100 100) = 68%nat /\
   CanvasGameGrid.enumerated v 800 600 100 100 <> []) /\
  (offScreen (MobileOptimizedCanvas.cellSize m) (MobileOptimizedCanvas.pitch m)
     m 350 350 100 100 /\
   MobileOptimizedCanvas.visibleStartX (MobileOptimizedCanvas.visibleArea m 350 350 100 100) = 0 /\
   MobileOptimizedCanvas.visibleEndX (MobileOptimizedCanvas.visibleArea m 350 350 100 100) = 7 /\
   MobileOptimizedCanvas.enumerated m 350 350 100 100 <> []).
Proof.
  cbv zeta. repeat split; try (left; reflexivity); try reflexivity;
    intros H; apply (f_equal (@length _)) in H; vm_compute in H; discriminate.
Qed.

(** C4, amended.  For every camera and canvas size the range of both
    cullers satisfies [0 <= start] and [end <= cols] (resp. [rows]), so
    every cell the loops run over lies inside the grid.  When the grid is
    fully off-screen no cell passes the loop's on-canvas test, so nothing
    is painted; the range itself is empty once the grid is off-screen by
    at least one pitch (desktop) or by at least the 20px buffer (touch).
    All of these are total functions: no error is raised. *)
Theorem culler_containment (viewport : ViewPort) (width height : Q) (rows cols : Z) :
  (let v := CanvasGameGrid.visibleArea viewport width height rows cols in
   (0 <= CanvasGameGrid.visibleStartX v /\ CanvasGameGrid.visibleEndX v <= cols /\
    0 <= CanvasGameGrid.visibleStartY v /\ CanvasGameGrid.visibleEndY v <= rows) /\
   (forall r c,
      In (r, c) (CanvasGameGrid.enumerated viewport width height rows cols) ->
      0 <= r < rows /\ 0 <= c < cols)) /\
  (let v := MobileOptimizedCanvas.visibleArea viewport width height rows cols in
   (0 <= MobileOptimizedCanvas.visibleStartX v
    /\ MobileOptimizedCanvas.visibleEndX v <= cols
    /\ 0 <= MobileOptimizedCanvas.visibleStartY v
    /\ MobileOptimizedCanvas.visibleEndY v <= rows) /\
   (forall r c,
      In (r, c) (MobileOptimizedCanvas.enumerated viewport width height rows cols) ->
      0 <= r < rows /\ 0 <= c < cols)) /\
  (offScreen (CanvasGameGrid.cellSize viewport) (CanvasGameGrid.pitch viewport)
     viewport width height rows cols ->
   forall blocks,
     CanvasGameGrid.drawGrid viewport width height rows cols blocks = []) /\
  (offScreen (MobileOptimizedCanvas.cellSize viewport)
     (MobileOptimizedCanvas.pitch viewport) viewport width height rows cols ->
   MobileOptimizedCanvas.blocksToRender viewport width height rows cols = []) /\
  (offScreenBy (CanvasGameGrid.pitch viewport) (CanvasGameGrid.pitch viewport)
     viewport width height rows cols ->
   CanvasGameGrid.enumerated viewport width height rows cols = []) /\
  (offScreenBy MobileOptimizedCanvas.buffer (MobileOptimizedCanvas.pitch viewport)
     viewport width height rows cols ->
   MobileOptimizedCanvas.enumerated viewport width height rows cols = []).
Proof.
  split; [apply canvas_range|]. split; [apply mobile_range|].
  split; [intros H blocks; now apply canvas_offScreen_unpainted|].
  split; [apply mobile_offScreen_unpainted|].
  split; [apply canvas_offScreenBy_empty | apply mobile_offScreenBy_empty].
Qed.

Lemma culler_containment_witness :
  let v := {| View.x := -1000; View.y := -1000; View.zoom := 1 |} in
  offScreen (CanvasGameGrid.cellSize v) (CanvasGameGrid.pitch v) v 500 500 10 10 /\
  offScreenBy (CanvasGameGrid.pitch v) (CanvasGameGrid.pitch v) v 500 500 10 10 /\
  offScreenBy MobileOptimizedCanvas.buffer (MobileOptimizedCanvas.pitch v)
    v 500 500 10 10 /\
  CanvasGameGrid.drawGrid v 500 500 10 10 [] = [] /\
  MobileOptimizedCanvas.blocksToRender v 500 500 10 10 = [] /\
  CanvasGameGrid.enumerated v 500 500 10 10 = [] /\
  MobileOptimizedCanvas.enumerated v 500 500 10 10 = [].
Proof.
  cbv zeta.
  pose (v := {| View.x := -1000; View.y := -1000; View.zoom := 1 |}).
  pose proof (culler_containment v 500 500 10 10) as (_ & _ & Hd & Hm & He & Hem).
  assert (offScreen (CanvasGameGrid.cellSize v) (CanvasGameGrid.pitch v) v 500 500 10 10)
    as H1 by (right; right; left; reflexivity).
  assert (offScreen (MobileOptimizedCanvas.cellSize v) (MobileOptimizedCanvas.pitch v)
            v 500 500 10 10) as H2 by (right; right; left; reflexivity).
  assert (offScreenBy (CanvasGameGrid.pitch v) (CanvasGameGrid.pitch v) v 500 500 10 10)
    as H3 by (right; right; left; vm_compute; discriminate).
  assert (offScreenBy MobileOptimizedCanvas.buffer (MobileOptimizedCanvas.pitch v)
            v 500 500 10 10) as H4 by (right; right; left; vm_compute; discriminate).
  split; [exact H1|]. split; [exact H3|]. split; [exact H4|].
  split; [exact (Hd H1 [])|]. split; [exact (Hm H2)|].
  split; [exact (He H3) | exact (Hem H4)].
Defined.

End Culling.

(** ** Rounding to doubles *)

Module Rounding.
Import Notions.

Lemma roundEven_error (q : Q) :
  (Qabs (inject_Z (JsMath.roundEven q) - q) <= 1 # 2)%Q.
Proof.
  unfold JsMath.roundEven.
  pose proof (Qfloor_le q) as Hlo. pose proof (Qlt_floor q) as Hhi.
  rewrite inject_Z_plus in Hhi. change (inject_Z 1) with 1%Q in Hhi.
  apply Qabs_Qle_condition.
  destruct (JsMath.ltb (q - inject_Z (Qfloor q)) (1 # 2)) eqn:E1.
  - apply JsMathFacts.ltb_lt in E1. lra.
  - destruct (JsMath.ltb (1 # 2) (q - inject_Z (Qfloor q))) eqn:E2.
    + apply JsMathFacts.ltb_lt in E2. rewrite inject_Z_plus.
      change (inject_Z 1) with 1%Q. lra.
    + apply JsMathFacts.ltb_ge in E1, E2.
      destruct (Z.even (Qfloor q)); [lra|].
      rewrite inject_Z_plus. change (inject_Z 1) with 1%Q. lra.
Qed.

Lemma two_neq_0 : ~ (2 == 0)%Q.
Proof. intros H. discriminate H. Qed.

Lemma pow2_pos (k : Z) : (0 < 2 ^ k)%Q.
Proof. apply Qpower_0_lt. reflexivity. Qed.

(** [Z.log2 n - Z.log2 d - 1] is an exponent at or below the leading bit
    of [n # d]. *)
Lemma pow2_log2_le (n : Z) (d : positive) :
  0 < n -> (2 ^ (Z.log2 n - Z.log2 (Z.pos d) - 1) <= n # d)%Q.
Proof.
  intros Hn.
  destruct (Z.log2_spec n Hn) as [Hn1 _].
  destruct (Z.log2_spec (Z.pos d) eq_refl) as [_ Hd2].
  pose proof (Z.log2_nonneg n) as Hln. pose proof (Z.log2_nonneg (Z.pos d)) as Hld.
  replace (Z.log2 n - Z.log2 (Z.pos d) - 1)
    with (Z.log2 n + - (Z.succ (Z.log2 (Z.pos d)))) by lia.
  rewrite Qpower_plus by exact two_neq_0. rewrite Qpower_opp.
  change 2%Q with (inject_Z 2).
  rewrite <- !Zpower_Qpower by lia.
  set (A := 2 ^ Z.log2 n) in *. set (B := 2 ^ Z.succ (Z.log2 (Z.pos d))) in *.
  assert (0 < A) as HA by (subst A; apply Z.pow_pos_nonneg; lia).
  assert (0 < B) as HB by lia.
  assert (0 < inject_Z B)%Q as HBq
    by (change 0%Q with (inject_Z 0); now rewrite <- Zlt_Qlt).
  change (inject_Z A * / inject_Z B)%Q with (inject_Z A / inject_Z B)%Q.
  apply Qle_shift_div_r; [exact HBq|].
  unfold Qle, Qmult, inject_Z. cbn [Qnum Qden]. nia.
Qed.

(** Rounding to a double moves a number by at most 2^-53 of its size. *)
Lemma double_error (q : Q) : (Qabs (JsMath.double q - q) <= Qabs q * eps)%Q.
Proof.
  unfold JsMath.double. destruct (Qeq_bool q 0) eqn:E0.
  - apply Qeq_bool_iff in E0. rewrite E0. vm_compute. discriminate.
  - assert (~ q == 0)%Q as Hq0 by (intros H; apply Qeq_bool_iff in H; congruence).
    set (a := Qabs q).
    assert (0 < a)%Q as Ha.
    { subst a. pose proof (Qabs_nonneg q).
      destruct (Qeq_dec (Qabs q) 0) as [H0|H0]; [|lra].
      exfalso. apply Hq0. revert H0. apply Qabs_case; intros; lra. }
    set (e0 := Z.log2 (Qnum a) - Z.log2 (Z.pos (Qden a))).
    set (e := if Qle_bool (2 ^ e0) a then e0 else e0 - 1).
    assert (2 ^ e <= a)%Q as He.
    { subst e. destruct (Qle_bool (2 ^ e0) a) eqn:E; [now apply Qle_bool_iff|].
      subst e0. destruct a as [n d]. cbn [Qnum Qden] in *.
      apply pow2_log2_le. unfold Qlt in Ha. cbn [Qnum Qden] in Ha. lia. }
    set (k := e - 52).
    pose proof (pow2_pos k) as Hk.
    assert (2 ^ k * inject_Z (2 ^ 52) == 2 ^ e)%Q as Hke.
    { rewrite Zpower_Qpower by lia. change (inject_Z 2) with 2%Q.
      rewrite <- Qpower_plus by exact two_neq_0. subst k.
      now replace (e - 52 + 52) with e by lia. }
    pose proof (roundEven_error (a / 2 ^ k)) as Hr.
    set (m := inject_Z (JsMath.roundEven (a / 2 ^ k))) in *.
    apply Qabs_Qle_condition in Hr. destruct Hr as [Hr1 Hr2].
    assert (a / 2 ^ k * 2 ^ k == a)%Q as Hdiv by (field; lra).
    assert (m * 2 ^ k - a <= (1 # 2) * 2 ^ k)%Q as B1.
    { assert ((m - a / 2 ^ k) * 2 ^ k <= (1 # 2) * 2 ^ k)%Q
        by (apply Qmult_le_compat_r; lra).
      lra. }
    assert (- ((1 # 2) * 2 ^ k) <= m * 2 ^ k - a)%Q as B2.
    { assert (- (1 # 2) * 2 ^ k <= (m - a / 2 ^ k) * 2 ^ k)%Q
        by (apply Qmult_le_compat_r; lra).
      lra. }
    assert ((1 # 2) * 2 ^ k <= a * eps)%Q as B3.
    { unfold eps. change (inject_Z (2 ^ 52)) with (4503599627370496%Q) in Hke. lra. }
    apply Qabs_Qle_condition.
    destruct (Qle_bool 0 q) eqn:Es.
    + apply Qle_bool_iff in Es.
      assert (a == q)%Q as Eq by (subst a; now apply Qabs_pos). lra.
    + assert (q < 0)%Q as Hneg.
      { apply Qnot_le_lt. intros H. apply Qle_bool_iff in H. congruence. }
      assert (a == - q)%Q as Eq by (subst a; apply Qabs_neg; lra). lra.
Qed.

Lemma threshold_bounds : (0.01 <= JsMath.double 0.01 <= 0.010001)%Q.
Proof. split; vm_compute; discriminate. Qed.

(** The threshold test on a finite ratio [f]: away from the threshold
    the rounding does not matter. *)
Lemma jitter_margin (f : Q) :
  (0 <= f)%Q ->
  ((0.0101 <= Qabs (f - 1))%Q ->
   MobileOptimizedCanvas.beyondJitter (JsNum.Fin (JsMath.double f)) = true) /\
  ((Qabs (f - 1) <= 0.0099)%Q ->
   MobileOptimizedCanvas.beyondJitter (JsNum.Fin (JsMath.double f)) = false).
Proof.
  intros Hf. unfold MobileOptimizedCanvas.beyondJitter.
  cbn [JsNum.sub JsNum.abs JsNum.gtb].
  pose proof threshold_bounds as [Hc1 Hc2].
  pose proof (double_error f) as Hs. rewrite (Qabs_pos f) in Hs by lra.
  apply Qabs_Qle_condition in Hs. destruct Hs as [Hs1 Hs2].
  set (s := JsMath.double f) in *.
  pose proof (double_error (s - 1)) as Ht. apply Qabs_Qle_condition in Ht.
  destruct Ht as [Ht1 Ht2].
  set (t := JsMath.double (s - 1)) in *. set (c := JsMath.double 0.01) in *.
  unfold eps in *.
  split.
  - intros Hfar. apply JsMathFacts.gtb_gt.
    assert (1.0101 <= f \/ f <= 0.9899)%Q as [Hup|Hdown].
    { revert Hfar. apply Qabs_case; intros; [left | right]; lra. }
    + assert (0 <= s - 1)%Q as Hpos by lra.
      rewrite (Qabs_pos (s - 1)) in Ht1, Ht2 by exact Hpos.
      rewrite Qabs_pos by lra. lra.
    + assert (s - 1 <= 0)%Q as Hneg by lra.
      rewrite (Qabs_neg (s - 1)) in Ht1, Ht2 by exact Hneg.
      rewrite Qabs_neg by lra. lra.
  - intros Hnear. apply Qabs_Qle_condition in Hnear. destruct Hnear as [Hn1 Hn2].
    apply JsMathFacts.gtb_le.
    assert (Qabs (s - 1) <= 0.00991)%Q as Hs1' by (apply Qabs_Qle_condition; lra).
    assert (Qabs t <= 0.00992)%Q as Habs.
    { apply Qabs_Qle_condition. pose proof (Qabs_nonneg (s - 1)).
      revert Ht1 Ht2 Hs1'. apply (Qabs_case (s - 1)); intros; lra. }
    lra.
Qed.

End Rounding.

(** ** Zoom bounds *)

Module ZoomBounds.
Import Notions.

(** *** Desktop canvas *)

Lemma wheel_bounds viewport rect clientX clientY deltaY :
  inBounds 0.1 5
    (CanvasGameGrid.handleWheel viewport (Some rect) clientX clientY deltaY).
Proof. unfold inBounds. simpl. apply JsMathFacts.clamp_bounds. lra. Qed.

Lemma canvas_buttons viewport :
  (View.zoom (CanvasGameGrid.zoomIn viewport) <= 5)%Q /\
  (0.1 <= View.zoom (CanvasGameGrid.zoomOut viewport))%Q.
Proof. simpl. split; [apply JsMathFacts.min_ub_l | apply JsMathFacts.max_lb_l]. Qed.

Lemma canvas_step_bounds viewport op :
  CanvasGameGrid.isFit op = false ->
  inBounds 0.1 5 viewport -> inBounds 0.1 5 (CanvasGameGrid.step viewport op).
Proof.
  unfold inBounds. intros Hop [Hlo Hhi].
  destruct op as [dx dy|canvas cx cy dy| | | |w h rows cols]; simpl;
    try discriminate.
  - lra.
  - destruct canvas as [rect|]; simpl; [|lra].
    apply JsMathFacts.clamp_bounds. lra.
  - destruct (JsMathFacts.min_cases 5 (View.zoom viewport * 1.5)) as [[H ->]|[H ->]]; lra.
  - destruct (JsMathFacts.max_cases 0.1 (View.zoom viewport / 1.5)) as [[H ->]|[H ->]];
      [|lra].
    split; [exact H|]. apply Qle_shift_div_r; lra.
  - lra.
Qed.

Lemma canvas_run_bounds ops : forall viewport,
  forallb (fun op => negb (CanvasGameGrid.isFit op)) ops = true ->
  inBounds 0.1 5 viewport ->
  inBounds 0.1 5 (fold_left CanvasGameGrid.step ops viewport).
Proof.
  induction ops as [|op ops IH]; intros viewport Hops Hin; simpl in *; [exact Hin|].
  apply andb_prop in Hops as [Hop Hops]. apply negb_true_iff in Hop.
  apply IH; [exact Hops|]. now apply canvas_step_bounds.
Qed.

(** No handler constrains the offset: a drag reaches any offset. *)
Lemma pan_reaches viewport (targetX targetY : Q) :
  let viewport' :=
    CanvasGameGrid.handleMouseMove viewport
      (targetX - View.x viewport) (targetY - View.y viewport) in
  (View.x viewport' == targetX)%Q /\ (View.y viewport' == targetY)%Q /\
  View.zoom viewport' = View.zoom viewport.
Proof. cbv zeta. simpl. repeat split; ring. Qed.

(** *** Touch canvas *)

Lemma finite_clamp (n : JsNum.t) (z : Q) :
  MobileOptimizedCanvas.finite (JsNum.max 0.1 (JsNum.min 3 n)) = Some z ->
  (0.1 <= z <= 3)%Q.
Proof.
  destruct n as [q| | |]; simpl; intros [= <-].
  - apply JsMathFacts.clamp_bounds. lra.
  - vm_compute. split; discriminate.
  - lra.
Qed.

(** A pinch ratio beyond the jitter threshold is not [NaN], so from a
    zoom other than 0 the new zoom is a number. *)
Lemma finite_zoom (z : Q) (scale : JsNum.t) :
  ~ (z == 0)%Q ->
  MobileOptimizedCanvas.beyondJitter scale = true ->
  exists z', MobileOptimizedCanvas.finite
               (JsNum.max 0.1 (JsNum.min 3 (JsNum.mul z scale))) = Some z'.
Proof.
  intros Hz Hgt.
  assert (Qeq_bool z 0 = false) as E0.
  { destruct (Qeq_bool z 0) eqn:E; [|reflexivity]. apply Qeq_bool_iff in E. contradiction. }
  destruct scale as [q| | |]; cbn [JsNum.mul]; rewrite ?E0.
  - simpl. eauto.
  - destruct (Qle_bool 0 z); simpl; eauto.
  - destruct (Qle_bool 0 z); simpl; eauto.
  - discriminate.
Qed.

(** A pinch frame puts the zoom within bounds when it passes the jitter
    test, whatever the zoom was, and leaves the camera alone otherwise. *)
Lemma pinch_bounds Math_sqrt st touch1 touch2 :
  ~ (View.zoom (MobileOptimizedCanvas.viewport st) == 0)%Q ->
  let scale :=
    MobileOptimizedCanvas.pinchScale st
      (MobileOptimizedCanvas.pinchDistance Math_sqrt touch1 touch2) in
  exists st',
    MobileOptimizedCanvas.handleTouchMove Math_sqrt true [touch1; touch2] st = Some st' /\
    (MobileOptimizedCanvas.beyondJitter scale = true ->
     inBounds 0.1 3 (MobileOptimizedCanvas.viewport st')) /\
    (MobileOptimizedCanvas.beyondJitter scale = false ->
     MobileOptimizedCanvas.viewport st' = MobileOptimizedCanvas.viewport st).
Proof.
  intros Hz scale. unfold MobileOptimizedCanvas.handleTouchMove. fold scale.
  destruct (MobileOptimizedCanvas.beyondJitter scale) eqn:Hgt.
  - destruct (finite_zoom _ scale Hz Hgt) as [z' Hz']. rewrite Hz'.
    eexists. split; [reflexivity|]. split; [|discriminate].
    intros _. unfold inBounds. simpl. now apply finite_clamp in Hz'.
  - eexists. split; [reflexivity|]. split; [discriminate | reflexivity].
Qed.

Lemma mobile_buttons viewport :
  (View.zoom (MobileOptimizedCanvas.zoomIn viewport) <= 2)%Q /\
  (0.1 <= View.zoom (MobileOptimizedCanvas.zoomOut viewport))%Q.
Proof. simpl. split; [apply JsMathFacts.min_ub_l | apply JsMathFacts.max_lb_l]. Qed.

Lemma mobile_step_bounds Math_sqrt st op :
  MobileOptimizedCanvas.isFit op = false ->
  inBounds 0.1 3 (MobileOptimizedCanvas.viewport st) ->
  exists st', MobileOptimizedCanvas.step Math_sqrt st op = Some st' /\
              inBounds 0.1 3 (MobileOptimizedCanvas.viewport st').
Proof.
  unfold inBounds. intros Hop [Hlo Hhi].
  destruct op as [canvas touches|canvas touches| | | |w h rows cols]; simpl;
    try discriminate.
  - eexists. split; [reflexivity|].
    unfold MobileOptimizedCanvas.handleTouchStart.
    destruct touches as [|t [|t' ts]]; simpl; lra.
  - destruct touches as [|t1 [|t2 [|t3 ts]]].
    + eexists. split; [reflexivity|]. lra.
    + unfold MobileOptimizedCanvas.handleTouchMove.
      destruct (MobileOptimizedCanvas.isDragging st), canvas;
        eexists; (split; [reflexivity|]); simpl; lra.
    + destruct canvas; [|eexists; split; [reflexivity|]; lra].
      destruct (pinch_bounds Math_sqrt st t1 t2) as [st' [Hrun [Hin Hout]]]; [lra|].
      exists st'. split; [exact Hrun|].
      destruct (MobileOptimizedCanvas.beyondJitter _).
      * now apply Hin.
      * rewrite Hout by reflexivity. lra.
    + eexists. split; [reflexivity|]. lra.
  - eexists. split; [reflexivity|]. simpl. lra.
  - eexists. split; [reflexivity|]. simpl.
    destruct (JsMathFacts.min_cases 2 (View.zoom (MobileOptimizedCanvas.viewport st) * 1.4))
      as [[H ->]|[H ->]]; lra.
  - eexists. split; [reflexivity|]. simpl.
    destruct (JsMathFacts.max_cases 0.1 (View.zoom (MobileOptimizedCanvas.viewport st) / 1.4))
      as [[H ->]|[H ->]]; [|lra].
    split; [exact H|]. apply Qle_shift_div_r; lra.
Qed.

Lemma mobile_run_bounds Math_sqrt ops : forall st,
  forallb (fun op => negb (MobileOptimizedCanvas.isFit op)) ops = true ->
  inBounds 0.1 3 (MobileOptimizedCanvas.viewport st) ->
  exists st', MobileOptimizedCanvas.run Math_sqrt st ops = Some st' /\
              inBounds 0.1 3 (MobileOptimizedCanvas.viewport st').
Proof.
  induction ops as [|op ops IH]; intros st Hops Hin; simpl in *; [eauto|].
  apply andb_prop in Hops as [Hop Hops]. apply negb_true_iff in Hop.
  destruct (mobile_step_bounds Math_sqrt st op Hop Hin) as [st1 [-> Hin1]].
  now apply IH.
Qed.

(** C9, as stated, fails for [fitToView], which stores the fitting scale
    unclamped: a 1000 by 1000 grid fitted into the 800 by 600 desktop
    canvas gets zoom 0.06, and a 500 by 400 grid (200,000 cells) fitted
    into the 350 by 350 touch canvas gets a zoom below 0.1. *)
Lemma fitToView_out_of_bounds :
  (View.zoom (CanvasGameGrid.step CanvasGameGrid.initialViewport
                (CanvasGameGrid.OpFitToView 800 600 1000 1000)) == 0.06)%Q /\
  ~ inBounds 0.1 5
      (CanvasGameGrid.step CanvasGameGrid.initialViewport
         (CanvasGameGrid.OpFitToView 800 600 1000 1000)) /\
  ~ inBounds 0.1 3
      (MobileOptimizedCanvas.fitToView MobileOptimizedCanvas.initialViewport
         350 350 500 400).
Proof.
  split; [reflexivity|].
  split; intros [Hlo _]; vm_compute in Hlo; apply Hlo; reflexivity.
Qed.

(** C9, amended.  Desktop canvas: wheel zoom over the canvas and reset
    put the zoom within [0.1, 5] whatever it was; the zoom-in button
    caps it at 5 and the zoom-out button floors it at 0.1; a drag leaves
    it unchanged and reaches any offset.  Touch canvas: a pinch frame
    that passes the jitter test puts the zoom within [0.1, 3] whatever
    it was (not 0), one that fails the test leaves the camera unchanged;
    the zoom-in button caps the zoom at 2 and the zoom-out button floors
    it at 0.1.  Hence, from a camera within bounds, as both initial
    cameras are, every sequence of these operations yields a camera
    within [0.1, 5], respectively [0.1, 3].  ([fitToView], which the
    touch canvas also runs when it is mounted, stores the fitting scale
    as it is; after it the zoom is within bounds again once a wheel
    zoom, a reset or a pinch beyond the threshold has run.) *)
Theorem zoom_bounds_invariant :
  ((forall viewport rect clientX clientY deltaY,
      inBounds 0.1 5
        (CanvasGameGrid.handleWheel viewport (Some rect) clientX clientY deltaY)) /\
   inBounds 0.1 5 CanvasGameGrid.resetView /\
   inBounds 0.1 5 CanvasGameGrid.initialViewport /\
   (forall viewport,
      (View.zoom (CanvasGameGrid.zoomIn viewport) <= 5)%Q /\
      (0.1 <= View.zoom (CanvasGameGrid.zoomOut viewport))%Q) /\
   (forall viewport targetX targetY,
      let viewport' :=
        CanvasGameGrid.handleMouseMove viewport
          (targetX - View.x viewport) (targetY - View.y viewport) in
      (View.x viewport' == targetX)%Q /\ (View.y viewport' == targetY)%Q /\
      View.zoom viewport' = View.zoom viewport) /\
   (forall ops viewport,
      forallb (fun op => negb (CanvasGameGrid.isFit op)) ops = true ->
      inBounds 0.1 5 viewport ->
      inBounds 0.1 5 (fold_left CanvasGameGrid.step ops viewport))) /\
  ((forall Math_sqrt st touch1 touch2,
      ~ (View.zoom (MobileOptimizedCanvas.viewport st) == 0)%Q ->
      let scale :=
        MobileOptimizedCanvas.pinchScale st
          (MobileOptimizedCanvas.pinchDistance Math_sqrt touch1 touch2) in
      exists st',
        MobileOptimizedCanvas.handleTouchMove Math_sqrt true [touch1; touch2] st
        = Some st' /\
        (MobileOptimizedCanvas.beyondJitter scale = true ->
         inBounds 0.1 3 (MobileOptimizedCanvas.viewport st')) /\
        (MobileOptimizedCanvas.beyondJitter scale = false ->
         MobileOptimizedCanvas.viewport st' = MobileOptimizedCanvas.viewport st)) /\
   inBounds 0.1 3 (MobileOptimizedCanvas.viewport MobileOptimizedCanvas.initialState) /\
   (forall viewport,
      (View.zoom (MobileOptimizedCanvas.zoomIn viewport) <= 2)%Q /\
      (0.1 <= View.zoom (MobileOptimizedCanvas.zoomOut viewport))%Q) /\
   (forall Math_sqrt ops st,
      forallb (fun op => negb (MobileOptimizedCanvas.isFit op)) ops = true ->
      inBounds 0.1 3 (MobileOptimizedCanvas.viewport st) ->
      exists st', MobileOptimizedCanvas.run Math_sqrt st ops = Some st' /\
                  inBounds 0.1 3 (MobileOptimizedCanvas.viewport st'))).
Proof.
  split.
  - split; [apply wheel_bounds|]. split; [unfold inBounds; simpl; lra|].
    split; [unfold inBounds; simpl; lra|]. split; [apply canvas_buttons|].
    split; [apply pan_reaches|]. intros ops viewport. apply canvas_run_bounds.
  - split; [apply pinch_bounds|]. split; [unfold inBounds; simpl; lra|].
    split; [apply mobile_buttons|]. intros Math_sqrt ops st. apply mobile_run_bounds.
Qed.

Lemma zoom_bounds_invariant_witness :
  let ops := [CanvasGameGrid.OpWheel (Some {| left := 0; top := 0 |}) 91 91 (-100000);
              CanvasGameGrid.OpZoomIn; CanvasGameGrid.OpMouseMove 5 5;
              CanvasGameGrid.OpZoomOut] in
  let touch := {| MobileOptimizedCanvas.clientX := 10;
                  MobileOptimizedCanvas.clientY := 10 |} in
  let touch' := {| MobileOptimizedCanvas.clientX := 13;
                   MobileOptimizedCanvas.clientY := 14 |} in
  let taps := [MobileOptimizedCanvas.OpTouchMove true [touch; touch];
               MobileOptimizedCanvas.OpTouchMove true [touch; touch'];
               MobileOptimizedCanvas.OpZoomIn; MobileOptimizedCanvas.OpTouchEnd] in
  let mounted :=
    MobileOptimizedCanvas.withViewport MobileOptimizedCanvas.initialState
      (MobileOptimizedCanvas.fitToView MobileOptimizedCanvas.initialViewport
         350 350 500 400) in
  (forallb (fun op => negb (CanvasGameGrid.isFit op)) ops = true /\
   inBounds 0.1 5 CanvasGameGrid.initialViewport /\
   inBounds 0.1 5 (fold_left CanvasGameGrid.step ops CanvasGameGrid.initialViewport)) /\
  (forallb (fun op => negb (MobileOptimizedCanvas.isFit op)) taps = true /\
   exists st',
     MobileOptimizedCanvas.run MobileOptimizedCanvas.sqrt_exact
       MobileOptimizedCanvas.initialState taps = Some st' /\
     inBounds 0.1 3 (MobileOptimizedCanvas.viewport st')) /\
  (~ (View.zoom (MobileOptimizedCanvas.viewport mounted) == 0)%Q /\
   exists st',
     MobileOptimizedCanvas.handleTouchMove MobileOptimizedCanvas.sqrt_exact true
       [touch; touch'] mounted = Some st').
Proof.
  cbv zeta.
  destruct zoom_bounds_invariant
    as [(_ & _ & Hinit & _ & _ & Hrun) (Hpinch & Hinit' & _ & Hrun')].
  split; [|split].
  - split; [reflexivity|]. split; [exact Hinit|].
    apply Hrun; [reflexivity | exact Hinit].
  - split; [reflexivity|].
    apply Hrun'; [reflexivity | exact Hinit'].
  - assert (~ (View.zoom (MobileOptimizedCanvas.viewport
                            (MobileOptimizedCanvas.withViewport
                               MobileOptimizedCanvas.initialState
                               (MobileOptimizedCanvas.fitToView
                                  MobileOptimizedCanvas.initialViewport 350 350 500 400)))
              == 0)%Q) as Hz by (intros H; vm_compute in H; discriminate H).
    split; [exact Hz|].
    destruct (Hpinch MobileOptimizedCanvas.sqrt_exact _
                {| MobileOptimizedCanvas.clientX := 10; MobileOptimizedCanvas.clientY := 10 |}
                {| MobileOptimizedCanvas.clientX := 13; MobileOptimizedCanvas.clientY := 14 |}
                Hz) as [st' [Hrun1 _]].
    exists st'. exact Hrun1.
Defined.

End ZoomBounds.

(** ** Pinch zoom of the touch canvas *)

Module Pinch.
Import MobileOptimizedCanvas.

Lemma div_finite (a d : Q) :
  ~ (d == 0)%Q -> JsNum.div a d = JsNum.Fin (JsMath.double (a / d)).
Proof.
  intros Hd. unfold JsNum.div.
  destruct (Qeq_bool d 0) eqn:E; [|reflexivity].
  apply Qeq_bool_iff in E. contradiction.
Qed.

(** C5, as stated, fails: the pinch branch changes the zoom only.  With
    the camera at offset 0 and zoom 1, a previous distance of 5 and the
    fingers at (0,0) and (6,8), the factor is 2 and the zoom becomes 2
    with the offset still 0: the cell-space point under the centroid
    (3,4) moves from 3/7 to 3/14. *)
Lemma pinch_centroid_counterexample :
  let st := {| viewport := {| View.x := 0; View.y := 0; View.zoom := 1 |};
               isDragging := false;
               dataset := {| lastX := None; lastY := None; lastDistance := Some 5%Q |} |} in
  let touch1 := {| clientX := 0; clientY := 0 |} in
  let touch2 := {| clientX := 6; clientY := 8 |} in
  let rect := {| left := 0; top := 0 |} in
  exists st',
    handleTouchMove sqrt_exact true [touch1; touch2] st = Some st' /\
    (pinchDistance sqrt_exact touch1 touch2 == 10)%Q /\
    View.x (viewport st') = View.x (viewport st) /\
    View.y (viewport st') = View.y (viewport st) /\
    (View.zoom (viewport st') == 2)%Q /\
    (worldX (viewport st) rect 3 == 3 # 7)%Q /\
    (worldX (viewport st') rect 3 == 3 # 14)%Q /\
    ~ (worldX (viewport st') rect 3 == worldX (viewport st) rect 3)%Q.
Proof.
  cbv zeta. eexists. split; [vm_compute; reflexivity|].
  split; [reflexivity|]. split; [reflexivity|]. split; [reflexivity|].
  split; [reflexivity|]. split; [reflexivity|]. split; [reflexivity|].
  intros H. vm_compute in H. discriminate.
Qed.

(** C5, amended.  In a pinch frame with a recorded previous distance
    above 0, let [factor] be the distance over the previous distance
    and [scale] the double nearest to it, as the source computes it.
    When the source's test [|scale - 1| > 0.01] passes, the zoom becomes
    the old zoom times [scale], clamped to [0.1, 3], and the offset
    stays as it is, so the zoom is about the grid origin and not about
    the pinch centroid; when the test fails the camera is left
    unchanged.  The test passes whenever [|factor - 1|] is at least
    0.0101 and fails whenever it is at most 0.0099; in between the
    rounding of the doubles decides, and a factor of exactly 1.01 or
    0.99 passes.  Either way the frame's distance is recorded for the
    next one. *)
Theorem pinch_frame (Math_sqrt : Q -> Q) (st : State) (touch1 touch2 : Touch)
    (previous : Q) :
  lastDistance (dataset st) = Some previous -> (0 < previous)%Q ->
  (0 <= pinchDistance Math_sqrt touch1 touch2)%Q ->
  let distance := pinchDistance Math_sqrt touch1 touch2 in
  let factor := (distance / previous)%Q in
  let scale := JsMath.double factor in
  exists st',
    handleTouchMove Math_sqrt true [touch1; touch2] st = Some st' /\
    lastDistance (dataset st') = Some distance /\
    View.x (viewport st') = View.x (viewport st) /\
    View.y (viewport st') = View.y (viewport st) /\
    (beyondJitter (JsNum.Fin scale) = true ->
     View.zoom (viewport st')
     = JsMath.max 0.1 (JsMath.min 3 (View.zoom (viewport st) * scale))) /\
    (beyondJitter (JsNum.Fin scale) = false -> viewport st' = viewport st) /\
    ((0.0101 <= Qabs (factor - 1))%Q -> beyondJitter (JsNum.Fin scale) = true) /\
    ((Qabs (factor - 1) <= 0.0099)%Q -> beyondJitter (JsNum.Fin scale) = false) /\
    beyondJitter (JsNum.div 101 100) = true /\
    beyondJitter (JsNum.div 99 100) = true.
Proof.
  intros Hlast Hprev Hdist distance factor scale.
  assert (0 <= factor)%Q as Hfactor.
  { subst factor. apply Qle_shift_div_l; [exact Hprev | subst distance; lra]. }
  destruct (Rounding.jitter_margin factor Hfactor) as [Hfar Hnear]. fold scale in Hfar, Hnear.
  unfold handleTouchMove, pinchScale. fold distance. rewrite Hlast.
  rewrite (div_finite distance previous) by lra. fold factor. fold scale.
  destruct (beyondJitter (JsNum.Fin scale)) eqn:E.
  - cbn [finite JsNum.max JsNum.min JsNum.mul].
    eexists. split; [reflexivity|]. cbn [viewport dataset lastDistance View.x View.y View.zoom].
    repeat split; try reflexivity; try discriminate; try assumption.
  - eexists. split; [reflexivity|]. cbn [viewport dataset lastDistance].
    repeat split; try reflexivity; try discriminate; try assumption.
Qed.

Lemma pinch_frame_witness :
  let st := {| viewport := {| View.x := 0; View.y := 0; View.zoom := 1 |};
               isDragging := false;
               dataset := {| lastX := None; lastY := None; lastDistance := Some 5%Q |} |} in
  let touch1 := {| clientX := 0; clientY := 0 |} in
  let touch2 := {| clientX := 6; clientY := 8 |} in
  lastDistance (dataset st) = Some 5%Q /\ (0 < 5)%Q /\
  (0 <= pinchDistance sqrt_exact touch1 touch2)%Q /\
  exists st',
    handleTouchMove sqrt_exact true [touch1; touch2] st = Some st' /\
    lastDistance (dataset st') = Some (pinchDistance sqrt_exact touch1 touch2).
Proof.
  cbv zeta.
  assert (0 < 5)%Q as H5 by reflexivity.
  assert (0 <= pinchDistance sqrt_exact {| clientX := 0; clientY := 0 |}
                  {| clientX := 6; clientY := 8 |})%Q as Hd
    by (vm_compute; discriminate).
  split; [reflexivity|]. split; [exact H5|]. split; [exact Hd|].
  destruct (pinch_frame sqrt_exact
              {| viewport := {| View.x := 0; View.y := 0; View.zoom := 1 |};
                 isDragging := false;
                 dataset := {| lastX := None; lastY := None; lastDistance := Some 5%Q |} |}
              {| clientX := 0; clientY := 0 |} {| clientX := 6; clientY := 8 |} 5
              eq_refl H5 Hd) as [st' [Hrun [Hrec _]]].
  exists st'. split; [exact Hrun | exact Hrec].
Defined.

(** C6.  The pinch branch has no guard for a previous distance of zero.
    Two fingers reported at the same point record the distance 0 (the
    ratio 0/0 is [NaN], so that frame changes nothing); in the next
    frame, with the fingers 5px apart, the ratio is [Infinity] and the
    zoom jumps from 0.3 to the maximum 3. *)
Theorem pinch_zero_distance_zoom_jump :
  let touch := {| clientX := 10; clientY := 10 |} in
  let touch' := {| clientX := 13; clientY := 14 |} in
  exists st1 st2,
    handleTouchMove sqrt_exact true [touch; touch] initialState = Some st1 /\
    viewport st1 = initialViewport /\
    lastDistance (dataset st1) = Some 0%Q /\
    (pinchDistance sqrt_exact touch touch' == 5)%Q /\
    pinchScale st1 (pinchDistance sqrt_exact touch touch') = JsNum.PosInf /\
    handleTouchMove sqrt_exact true [touch; touch'] st1 = Some st2 /\
    (View.zoom (viewport st1) == 0.3)%Q /\
    (View.zoom (viewport st2) == 3)%Q /\
    viewport st2 <> viewport st1.
Proof.
  cbv zeta. eexists. eexists.
  split; [vm_compute; reflexivity|].
  split; [reflexivity|]. split; [reflexivity|]. split; [reflexivity|].
  split; [reflexivity|]. split; [vm_compute; reflexivity|].
  split; [reflexivity|]. split; [reflexivity|]. discriminate.
Qed.

End Pinch.
